(** * Identifier documentation lookup of go-langserver (cmd/go-langserver/doc.go)

    A shallow embedding of [doc.go]: the documentation record [Doc] and its
    [String] method, the builtin fallback search [findInBuiltin], the
    package lookup [PackageDoc], the declaration renderer [formatNode] with
    its helpers [findTypeSpec] and [findVarSpec], and the resolution
    function [IdentDoc].

    Syntax trees are shared, pointer-linked Go structures.  They live in a
    store of nodes addressed by index; [formatNode] allocates its copies in
    that store and writes to them, so that what it does to the shared tree
    can be stated.  The Go libraries the file calls (go/printer, go/build,
    go/parser, go/doc, go/types, the loader) are parameters of the model. *)

From Stdlib Require Import ZArith Ascii.
From stdpp Require Import base option list strings gmap.

(** ** Outcomes and the store monad *)

(** A Go call returns a value, returns a non-nil [error], or panics. *)
Inductive outcome (A : Type) : Type :=
| Ok (a : A)
| Error (msg : string)
| Panic.
Arguments Ok {A} a.
Arguments Error {A} msg.
Arguments Panic {A}.

Module Ast.

(** [token.Pos]; [NoPos] is the zero value and the only invalid position. *)
Definition Pos := Z.
Definition NoPos : Pos := 0%Z.
Definition IsValid (p : Pos) : bool := negb (Z.eqb p NoPos).

(** [token.Token], restricted to the keywords a [GenDecl] carries. *)
Inductive Token := IMPORT | CONST | TYPE | VAR.

(** An [*ast.CommentGroup] is read only through its [Text] method. *)
Record CommentGroup := { cg_Text : string }.

(** The [Text] method of a comment group accepts a nil receiver and returns
    the empty string for it. *)
Definition Text (g : option CommentGroup) : string :=
  match g with
  | None => ""
  | Some c => cg_Text c
  end.

Record Ident := { id_NamePos : Pos; id_Name : string }.

(** Expressions and statements are never inspected by [doc.go]; they are
    carried as their source text. *)
Definition Expr := string.
Definition BlockStmt := string.

(** Addresses of nodes in the store. *)
Definition addr := nat.

Record FuncDecl := {
  fd_Doc : option CommentGroup;
  fd_Name : Ident;
  fd_Type : Expr;
  fd_Body : option BlockStmt }.

Record Field := {
  fl_Doc : option CommentGroup;
  fl_Names : list Ident;
  fl_Type : Expr;
  fl_Comment : option CommentGroup }.

Record ImportSpec := {
  is_Doc : option CommentGroup;
  is_Name : option Ident;
  is_Path : string;
  is_Comment : option CommentGroup }.

Record TypeSpec := {
  ts_Doc : option CommentGroup;
  ts_Name : Ident;
  ts_Type : Expr;
  ts_Comment : option CommentGroup }.

Record ValueSpec := {
  vs_Doc : option CommentGroup;
  vs_Names : list Ident;
  vs_Type : option Expr;
  vs_Values : list Expr;
  vs_Comment : option CommentGroup }.

(** [Specs] is a slice of pointers to spec nodes. *)
Record GenDecl := {
  gd_Doc : option CommentGroup;
  gd_TokPos : Pos;
  gd_Tok : Token;
  gd_Lparen : Pos;
  gd_Specs : list addr;
  gd_Rparen : Pos }.

(** The dynamic type of an [ast.Node] together with the struct it points
    to.  [NOther] stands for every node type [doc.go] has no case for
    ([*ast.File], [*ast.AssignStmt], [*ast.BlockStmt], ...). *)
Inductive Node :=
| NIdent (i : Ident)
| NFuncDecl (d : FuncDecl)
| NGenDecl (d : GenDecl)
| NField (f : Field)
| NImportSpec (s : ImportSpec)
| NTypeSpec (s : TypeSpec)
| NValueSpec (s : ValueSpec)
| NOther (kind : string).

(** The [Pos] method of a type spec is the position of the declared name. *)
Definition TypeSpec_Pos (s : TypeSpec) : Pos := id_NamePos (ts_Name s).

(** Field assignments on copies. *)
Definition fd_set_Doc (g : option CommentGroup) (d : FuncDecl) : FuncDecl :=
  {| fd_Doc := g; fd_Name := fd_Name d; fd_Type := fd_Type d; fd_Body := fd_Body d |}.
Definition fd_set_Body (b : option BlockStmt) (d : FuncDecl) : FuncDecl :=
  {| fd_Doc := fd_Doc d; fd_Name := fd_Name d; fd_Type := fd_Type d; fd_Body := b |}.
Definition ts_set_Doc (g : option CommentGroup) (s : TypeSpec) : TypeSpec :=
  {| ts_Doc := g; ts_Name := ts_Name s; ts_Type := ts_Type s; ts_Comment := ts_Comment s |}.
Definition vs_set_Doc (g : option CommentGroup) (s : ValueSpec) : ValueSpec :=
  {| vs_Doc := g; vs_Names := vs_Names s; vs_Type := vs_Type s;
     vs_Values := vs_Values s; vs_Comment := vs_Comment s |}.
Definition gd_set_Doc (g : option CommentGroup) (d : GenDecl) : GenDecl :=
  {| gd_Doc := g; gd_TokPos := gd_TokPos d; gd_Tok := gd_Tok d;
     gd_Lparen := gd_Lparen d; gd_Specs := gd_Specs d; gd_Rparen := gd_Rparen d |}.
Definition gd_set_Specs (l : list addr) (d : GenDecl) : GenDecl :=
  {| gd_Doc := gd_Doc d; gd_TokPos := gd_TokPos d; gd_Tok := gd_Tok d;
     gd_Lparen := gd_Lparen d; gd_Specs := l; gd_Rparen := gd_Rparen d |}.
Definition gd_set_Lparen (p : Pos) (d : GenDecl) : GenDecl :=
  {| gd_Doc := gd_Doc d; gd_TokPos := gd_TokPos d; gd_Tok := gd_Tok d;
     gd_Lparen := p; gd_Specs := gd_Specs d; gd_Rparen := gd_Rparen d |}.
Definition gd_set_Rparen (p : Pos) (d : GenDecl) : GenDecl :=
  {| gd_Doc := gd_Doc d; gd_TokPos := gd_TokPos d; gd_Tok := gd_Tok d;
     gd_Lparen := gd_Lparen d; gd_Specs := gd_Specs d; gd_Rparen := p |}.

End Ast.
Import Ast.

(** The store of syntax nodes: the node at address [a] is [h !! a]. *)
Abbreviation Heap := (list Node).

(** A computation over the store. *)
Definition M (A : Type) : Type := Heap -> outcome A * Heap.

Definition ret {A} (a : A) : M A := fun h => (Ok a, h).
Definition panic {A} : M A := fun h => (Panic, h).
Definition fail {A} (msg : string) : M A := fun h => (Error msg, h).

Definition bind {A B} (m : M A) (k : A -> M B) : M B :=
  fun h =>
    match m h with
    | (Ok a, h') => k a h'
    | (Error e, h') => (Error e, h')
    | (Panic, h') => (Panic, h')
    end.

Notation "'let*' x := m 'in' k" := (bind m (fun x => k))
  (at level 10, x name, m at level 100, k at level 200).

(** Dereferencing a node pointer.  A pointer outside the store cannot arise
    in Go; the model panics on it, as on a nil dereference. *)
Definition load (a : addr) : M Node :=
  fun h => match h !! a with
           | Some n => (Ok n, h)
           | None => (Panic, h)
           end.

(** A fresh variable whose address is taken: the node is placed at the end
    of the store. *)
Definition alloc (n : Node) : M addr :=
  fun h => (Ok (length h), h ++ [n]).

(** Assignment through a pointer. *)
Definition store (a : addr) (n : Node) : M unit :=
  fun h => match h !! a with
           | Some _ => (Ok tt, <[a := n]> h)
           | None => (Panic, h)
           end.

(** Assignment to fields of a struct of known dynamic type. *)
Definition update_FuncDecl (a : addr) (f : FuncDecl -> FuncDecl) : M unit :=
  let* n := load a in
  match n with
  | NFuncDecl d => store a (NFuncDecl (f d))
  | _ => panic
  end.

Definition update_GenDecl (a : addr) (f : GenDecl -> GenDecl) : M unit :=
  let* n := load a in
  match n with
  | NGenDecl d => store a (NGenDecl (f d))
  | _ => panic
  end.

Definition update_TypeSpec (a : addr) (f : TypeSpec -> TypeSpec) : M unit :=
  let* n := load a in
  match n with
  | NTypeSpec s => store a (NTypeSpec (f s))
  | _ => panic
  end.

Definition update_ValueSpec (a : addr) (f : ValueSpec -> ValueSpec) : M unit :=
  let* n := load a in
  match n with
  | NValueSpec s => store a (NValueSpec (f s))
  | _ => panic
  end.

(** ** Symbols of go/types *)

(** A [*types.Package], through its [Path] and [Name] methods. *)
Record TypesPackage := { tp_Path : string; tp_Name : string }.

(** The dynamic type of a [types.Object].  A constant carries the result of
    [Val().ExactString()], a variable its [Anonymous] flag, a package name
    the package it imports. *)
Inductive ObjKind :=
| KConst (exact : string)
| KVar (anonymous : bool)
| KPkgName (imported : TypesPackage)
| KFunc
| KTypeName
| KLabel
| KBuiltin
| KNil.

Record Object := {
  obj_Kind : ObjKind;
  obj_Pos : Pos;
  obj_Pkg : option TypesPackage;
  obj_Name : string;
  obj_String : string }.

(** ** Rendering a declaration: findTypeSpec, findVarSpec, formatNode *)

(** [findTypeSpec]: the first spec of the declaration whose position is
    [pos].  Each spec met on the way goes through an unchecked type
    assertion to a type spec, which panics on any other spec.  The
    result is the pointer together with the struct it points to; [None] is
    the nil pointer. *)
Fixpoint findTypeSpec_loop (specs : list addr) (pos : Pos)
  : M (option (addr * TypeSpec)) :=
  match specs with
  | [] => ret None
  | spec :: rest =>
      let* s := load spec in
      match s with
      | NTypeSpec typeSpec =>
          if Z.eqb (TypeSpec_Pos typeSpec) pos then ret (Some (spec, typeSpec))
          else findTypeSpec_loop rest pos
      | _ => panic
      end
  end.

Definition findTypeSpec (decl : GenDecl) (pos : Pos) : M (option (addr * TypeSpec)) :=
  findTypeSpec_loop (gd_Specs decl) pos.

(** The inner loop of [findVarSpec]: some name of the spec is at [pos]. *)
Definition hasNameAt (pos : Pos) (names : list Ident) : bool :=
  existsb (fun ident => Z.eqb (id_NamePos ident) pos) names.

(** [findVarSpec]: the first value spec one of whose names is at [pos]. *)
Fixpoint findVarSpec_loop (specs : list addr) (pos : Pos)
  : M (option (addr * ValueSpec)) :=
  match specs with
  | [] => ret None
  | spec :: rest =>
      let* s := load spec in
      match s with
      | NValueSpec varSpec =>
          if hasNameAt pos (vs_Names varSpec) then ret (Some (spec, varSpec))
          else findVarSpec_loop rest pos
      | _ => panic
      end
  end.

Definition findVarSpec (decl : GenDecl) (pos : Pos) : M (option (addr * ValueSpec)) :=
  findVarSpec_loop (gd_Specs decl) pos.

(** The type switch of [formatNode]: the copy [nc] handed to the printer,
    or [None] where the switch returns [obj.String()] at once (the
    [*ast.Field] case and the default case). *)
Definition formatNode_copy (n : addr) (obj : Object) : M (option addr) :=
  let* node := load n in
  match node with
  | NFuncDecl d =>
      (* cp := *n; cp.Doc = nil; cp.Body = nil; nc = &cp *)
      let* cp := alloc (NFuncDecl d) in
      let* _ := update_FuncDecl cp (fd_set_Doc None) in
      let* _ := update_FuncDecl cp (fd_set_Body None) in
      ret (Some cp)
  | NField _ => ret None
  | NTypeSpec s =>
      (* specCp := *n; specCp.Doc = nil; a fresh GenDecl around &specCp *)
      let* specCp := alloc (NTypeSpec s) in
      let* _ := update_TypeSpec specCp (ts_set_Doc None) in
      let* typeSpec :=
        alloc (NGenDecl {| gd_Doc := None; gd_TokPos := NoPos; gd_Tok := TYPE;
                           gd_Lparen := NoPos; gd_Specs := [specCp];
                           gd_Rparen := NoPos |}) in
      ret (Some typeSpec)
  | NGenDecl d =>
      (* cp := *n; cp.Doc = nil *)
      let* cp := alloc (NGenDecl d) in
      let* _ := update_GenDecl cp (gd_set_Doc None) in
      let* _ :=
        match gd_Specs d with
        | [] => ret tt
        | spec0 :: _ =>
            let* s0 := load spec0 in
            match s0 with
            | NTypeSpec _ =>
                let* spec := findTypeSpec d (obj_Pos obj) in
                let* _ :=
                  match spec with
                  | Some (_, ts) =>
                      let* specCp := alloc (NTypeSpec ts) in
                      let* _ := update_TypeSpec specCp (ts_set_Doc None) in
                      update_GenDecl cp (gd_set_Specs [specCp])
                  | None => ret tt
                  end in
                let* _ := update_GenDecl cp (gd_set_Lparen NoPos) in
                update_GenDecl cp (gd_set_Rparen NoPos)
            | NValueSpec _ =>
                let* spec := findVarSpec d (obj_Pos obj) in
                let* _ :=
                  match spec with
                  | Some (_, vs) =>
                      let* specCp := alloc (NValueSpec vs) in
                      let* _ := update_ValueSpec specCp (vs_set_Doc None) in
                      update_GenDecl cp (gd_set_Specs [specCp])
                  | None => ret tt
                  end in
                let* _ := update_GenDecl cp (gd_set_Lparen NoPos) in
                update_GenDecl cp (gd_set_Rparen NoPos)
            | _ => ret tt
            end
        end in
      ret (Some cp)
  | _ => ret None
  end.

(** A [*loader.Program] as [doc.go] uses it. *)
Record Program := {
  (** [printer.Config.Fprint] with the program's file set, on the node at an
      address of the store: the text written to the buffer, or [None] when
      it returns an error. *)
  prog_Fprint : Heap -> addr -> option string;
  (** [prog.Fset.Position(p).String()] *)
  prog_Position : Pos -> string;
  (** The file of a position in the package's entry of [prog.TypePackages],
      and [astutil.PathEnclosingInterval] on it: the nodes from the innermost
      one enclosing the position out to the file.  [None] when the package
      has no entry, where the Go code dereferences nil. *)
  prog_Path : TypesPackage -> Pos -> option (list addr) }.

(** The end of [formatNode]: print [nc], and fall back to [obj.String()]
    when the printer returns an error. *)
Definition formatNode_print (nc : addr) (obj : Object) (prog : Program) : M string :=
  fun h =>
    match prog_Fprint prog h nc with
    | None => (Ok (obj_String obj), h)
    | Some s => (Ok s, h)
    end.

Definition formatNode (n : addr) (obj : Object) (prog : Program) : M string :=
  let* nc := formatNode_copy n obj in
  match nc with
  | None => ret (obj_String obj)
  | Some nc => formatNode_print nc obj prog
  end.

(** ** The documentation record *)

Record Doc := {
  d_Name : string;
  d_Import : string;
  d_Pkg : string;
  d_Decl : string;
  d_Doc : string;
  d_Pos : string }.

Definition d_set_Doc (s : string) (d : Doc) : Doc :=
  {| d_Name := d_Name d; d_Import := d_Import d; d_Pkg := d_Pkg d;
     d_Decl := d_Decl d; d_Doc := s; d_Pos := d_Pos d |}.

Definition nl : string := String "010"%char "".
Definition dquote : string := String "034"%char "".

Definition indent : string := "".
Definition preIndent : string := "    ".

Section DocString.

(** [doc.ToText], as the text it writes for a documentation string, the two
    indentations and a line width. *)
Variable ToText : string -> string -> string -> nat -> string.

(** [Doc.String] has a pointer receiver: it returns the rendered text and
    leaves the record as the second component. *)
Definition Doc_String (d : Doc) : string * Doc :=
  let buf := "" in
  let buf :=
    if negb (String.eqb (d_Import d) "")
    then buf +:+ "import " +:+ dquote +:+ d_Import d +:+ dquote +:+ nl +:+ nl
    else buf in
  let buf := buf +:+ d_Decl d +:+ nl +:+ nl in
  let d := if String.eqb (d_Doc d) "" then d_set_Doc "Undocumented." d else d in
  let buf := buf +:+ ToText (d_Doc d) indent preIndent 80 in
  (buf, d).

End DocString.

(** ** The catalogue of go/doc *)

Record DocFunc := { f_Doc : string; f_Name : string; f_Decl : addr }.
Record DocValue := { v_Doc : string; v_Names : list string; v_Decl : addr }.
Record DocType := {
  t_Doc : string;
  t_Name : string;
  t_Decl : addr;
  t_Consts : list DocValue;
  t_Vars : list DocValue;
  t_Funcs : list DocFunc }.
Record DocPackage := {
  p_Doc : string;
  p_Name : string;
  p_Consts : list DocValue;
  p_Types : list DocType;
  p_Vars : list DocValue;
  p_Funcs : list DocFunc }.

(** ** The builtin fallback: findInBuiltin *)

(** The three candidate lists: the package's own entries, then those of
    each type in turn. *)
Record Candidates := {
  consts : list DocValue;
  vars : list DocValue;
  funcs : list DocFunc }.

Definition candidates (pkg : DocPackage) : Candidates :=
  foldl (fun c t => {| consts := consts c ++ t_Consts t;
                       vars := vars c ++ t_Vars t;
                       funcs := funcs c ++ t_Funcs t |})
        {| consts := p_Consts pkg; vars := p_Vars pkg; funcs := p_Funcs pkg |}
        (p_Types pkg).

(** Each search loop of [findInBuiltin] either returns from the function
    ([Some]) or runs to its end ([None]). *)
Fixpoint findInBuiltin_funcs (name : string) (obj : Object) (prog : Program)
    (l : list DocFunc) : M (option (string * string)) :=
  match l with
  | [] => ret None
  | f :: rest =>
      if String.eqb (f_Name f) name then
        let* decl := formatNode (f_Decl f) obj prog in
        ret (Some (f_Doc f, decl))
      else findInBuiltin_funcs name obj prog rest
  end.

Definition hasName (name : string) (names : list string) : bool :=
  existsb (fun n => String.eqb n name) names.

Fixpoint findInBuiltin_values (name : string) (l : list DocValue)
    : option (string * string) :=
  match l with
  | [] => None
  | v :: rest =>
      if hasName name (v_Names v) then Some (v_Doc v, "")
      else findInBuiltin_values name rest
  end.

Fixpoint findInBuiltin_types (name : string) (obj : Object) (prog : Program)
    (l : list DocType) : M (option (string * string)) :=
  match l with
  | [] => ret None
  | t :: rest =>
      if String.eqb (t_Name t) name then
        let* decl := formatNode (t_Decl t) obj prog in
        ret (Some (t_Doc t, decl))
      else findInBuiltin_types name obj prog rest
  end.

(** ** ImportPath *)

(** The slice expression [s[low:high]] on a string: the bytes from [low] up
    to [high], and a run-time panic unless [0 <= low <= high <= len(s)]. *)
Definition slice (s : string) (low high : Z) : outcome string :=
  if (0 <=? low)%Z && (low <=? high)%Z && (high <=? Z.of_nat (String.length s))%Z
  then Ok (String.substring (Z.to_nat low) (Z.to_nat (high - low)) s)
  else Panic.

(** [ImportPath] gets the import path from an import spec; [is_Path] is the
    literal [is.Path.Value], quotation marks included. *)
Definition ImportPath (spec : ImportSpec) : outcome string :=
  let s := is_Path spec in
  let l := Z.of_nat (String.length s) in
  (* trim the quotation marks *)
  slice s 1 (l - 1).

Section Resolution.

(** [builtinPackage()]: the go/doc package of [builtin.go].  The nodes its
    entries point to are in the store. *)
Variable builtinPackage : DocPackage.

Definition findInBuiltin (name : string) (obj : Object) (prog : Program)
    : M (string * string) :=
  let pkg := builtinPackage in
  let c := candidates pkg in
  (* funcs *)
  let* r := findInBuiltin_funcs name obj prog (funcs c) in
  match r with
  | Some r => ret r
  | None =>
      (* consts/vars *)
      match findInBuiltin_values name (consts c) with
      | Some r => ret r
      | None =>
          match findInBuiltin_values name (vars c) with
          | Some r => ret r
          | None =>
              (* types *)
              let* r := findInBuiltin_types name obj prog (p_Types pkg) in
              match r with
              | Some r => ret r
              | None => ret ("", "")
              end
          end
      end
  end.

(** ** Package documentation: PackageDoc *)

(** A [*build.Package]. *)
Record BuildPackage := {
  bp_Name : string;
  bp_Dir : string;
  bp_GoFiles : list string }.

(** A [*build.Context], through its [Import] method on an import path and
    a source directory. *)
Record BuildContext := {
  ctxt_Import : string -> string -> outcome BuildPackage }.

(** [parser.ParseDir] on a directory and a file-name filter, in the mode
    [PackageClauseOnly|ParseComments], and [doc.New]. *)
Variable AstPackage : Type.
Variable ParseDir : string -> (string -> bool) -> outcome (gmap string AstPackage).
Variable docNew : AstPackage -> string -> DocPackage.

Definition PackageDoc (ctxt : BuildContext) (srcDir importPath : string)
    : outcome Doc :=
  match ctxt_Import ctxt importPath srcDir with
  | Error e => Error e
  | Panic => Panic
  | Ok buildPkg =>
      (* only parse .go files in the specified package *)
      let filter := fun name : string =>
        existsb (fun fname => String.eqb fname name) (bp_GoFiles buildPkg) in
      match ParseDir (bp_Dir buildPkg) filter with
      | Error e => Error e
      | Panic => Panic
      | Ok pkgs =>
          match pkgs !! bp_Name buildPkg with
          | Some astPkg =>
              let docPkg := docNew astPkg importPath in
              Ok {| d_Name := bp_Name buildPkg;
                    d_Decl := "package " +:+ bp_Name buildPkg;
                    d_Doc := p_Doc docPkg;
                    d_Import := importPath;
                    d_Pkg := p_Name docPkg;
                    d_Pos := "" |}
          | None => Error ("No documentation found for " +:+ bp_Name buildPkg)
          end
      end
  end.

(** ** Resolution: IdentDoc *)

(** A [*loader.Package], through [ObjectOf] and the [Uses] map; identifiers
    are keys by address.  [None] is the nil object. *)
Record LoaderPackage := {
  ObjectOf : addr -> option Object;
  Uses : gmap addr Object }.

Definition lift {A} (o : outcome A) : M A := fun h => (o, h).

(** The first loop of [IdentDoc], over the enclosing path.  An identifier is
    skipped.  The case of the five declaration kinds is empty, and the
    [break] of the default case leaves the [switch] only: both go on to
    build the record from the node at hand and leave the loop. *)
Fixpoint IdentDoc_locate (pkgPath pkgName pos : string) (obj : Object)
    (prog : Program) (nodes : list addr) : M (option Doc) :=
  match nodes with
  | [] => ret None
  | node :: rest =>
      let* n := load node in
      let build_doc :=
        let* decl := formatNode node obj prog in
        ret (Some {| d_Import := pkgPath;
                     d_Pkg := pkgName;
                     d_Name := obj_Name obj;
                     d_Decl := decl;
                     d_Doc := "";
                     d_Pos := pos |}) in
      match n with
      | NIdent _ => IdentDoc_locate pkgPath pkgName pos obj prog rest
      | NFuncDecl _ | NGenDecl _ | NField _ | NTypeSpec _ | NValueSpec _ =>
          build_doc
      | _ => build_doc
      end
  end.

(** The second loop of [IdentDoc], over the same path. *)
Fixpoint IdentDoc_extract (obj : Object) (doc : Doc) (nodes : list addr)
    : M Doc :=
  match nodes with
  | [] => ret doc
  | node :: rest =>
      let* n := load node in
      match n with
      | NIdent _ => IdentDoc_extract obj doc rest
      | NFuncDecl n => ret (d_set_Doc (Text (fd_Doc n)) doc)
      | NField n =>
          match fl_Doc n, fl_Comment n with
          | Some g, _ => ret (d_set_Doc (Text (Some g)) doc)
          | None, Some g => ret (d_set_Doc (Text (Some g)) doc)
          | None, None => ret doc
          end
      | NTypeSpec n =>
          match ts_Doc n, ts_Comment n with
          | Some g, _ => ret (d_set_Doc (Text (Some g)) doc)
          | None, Some g => ret (d_set_Doc (Text (Some g)) doc)
          | None, None => IdentDoc_extract obj doc rest
          end
      | NValueSpec n =>
          match vs_Doc n, vs_Comment n with
          | Some g, _ => ret (d_set_Doc (Text (Some g)) doc)
          | None, Some g => ret (d_set_Doc (Text (Some g)) doc)
          | None, None => IdentDoc_extract obj doc rest
          end
      | NGenDecl n =>
          let constValue :=
            match obj_Kind obj with
            | KConst exact => exact
            | _ => ""
            end in
          let doc :=
            if String.eqb (d_Doc doc) "" && bool_decide (is_Some (gd_Doc n))
            then d_set_Doc (Text (gd_Doc n)) doc
            else doc in
          let doc :=
            if negb (String.eqb constValue "")
            then d_set_Doc (d_Doc doc +:+ nl +:+ "Constant Value: " +:+ constValue) doc
            else doc in
          ret doc
      | _ => ret doc
      end
  end.

(** The opening of [IdentDoc]: the object of the identifier, replaced by
    the entry of the [Uses] map when it is an anonymous field. *)
Definition IdentDoc_object (id : addr) (pkg : LoaderPackage) : option Object :=
  (* get definition of identifier *)
  let obj := ObjectOf pkg id in
  (* for anonymous fields, we want the type definition, not the field *)
  match obj with
  | Some o =>
      match obj_Kind o with
      | KVar true => Uses pkg !! id
      | _ => obj
      end
  | None => obj
  end.

Definition IdentDoc (ctx : BuildContext) (id : addr) (pkg : LoaderPackage)
    (prog : Program) : M Doc :=
  match IdentDoc_object id pkg with
  | None => panic
  | Some obj =>
      let pos :=
        if IsValid (obj_Pos obj) then prog_Position prog (obj_Pos obj) else "" in
      let pkgPath := match obj_Pkg obj with Some p => tp_Path p | None => "" end in
      let pkgName := match obj_Pkg obj with Some p => tp_Name p | None => "" end in
      match obj_Kind obj with
      | KPkgName imported =>
          (* handle packages imported under a different name *)
          lift (PackageDoc ctx "" (tp_Path imported))
      | _ =>
          match obj_Pkg obj with
          | None =>
              (* special case - builtins *)
              let* r := findInBuiltin (obj_Name obj) obj prog in
              let '(doc, decl) := r in
              if negb (String.eqb doc "") then
                ret {| d_Import := "builtin";
                       d_Pkg := "builtin";
                       d_Name := obj_Name obj;
                       d_Doc := doc;
                       d_Decl := decl;
                       d_Pos := pos |}
              else fail ("No documentation found for " +:+ obj_Name obj)
          | Some p =>
              match prog_Path prog p (obj_Pos obj) with
              | None => panic
              | Some nodes =>
                  let* doc := IdentDoc_locate pkgPath pkgName pos obj prog nodes in
                  match doc with
                  | None =>
                      (* This shouldn't happen *)
                      fail ("No documentation found for " +:+ obj_Name obj)
                  | Some doc => IdentDoc_extract obj doc nodes
                  end
              end
          end
      end
  end.

End Resolution.

(** * Vocabulary of the statements *)

(** [framed h0 m Q]: run from any store that extends [h0], [m] ends in a
    store that extends [h0], and a value it returns satisfies [Q]. *)
Definition framed {A} (h0 : Heap) (m : M A) (Q : A -> Prop) : Prop :=
  forall l, exists l',
    (m (h0 ++ l)).2 = h0 ++ l' /\ forall a, (m (h0 ++ l)).1 = Ok a -> Q a.

(** The spec pointers of a declaration point to the type specs [l]. *)
Definition typeSpecs_at (h : Heap) (specs : list addr) (l : list TypeSpec) : Prop :=
  Forall2 (fun a ts => h !! a = Some (NTypeSpec ts)) specs l.

Definition valueSpecs_at (h : Heap) (specs : list addr) (l : list ValueSpec) : Prop :=
  Forall2 (fun a vs => h !! a = Some (NValueSpec vs)) specs l.

(** The result of a search over a list of pointers, from the position and
    the value found in the list of structs they point to. *)
Definition pointed {S} (specs : list addr) (r : option (nat * S)) : option (addr * S) :=
  match r with
  | Some (i, s) => (fun a => (a, s)) <$> specs !! i
  | None => None
  end.

(** Exactly one element of a list satisfies [P], at index [i]. *)
Definition only_at {S} (P : S -> Prop) (l : list S) (i : nat) (s : S) : Prop :=
  l !! i = Some s /\ P s /\ forall j s', l !! j = Some s' -> P s' -> j = i.

(** The nodes [formatNode] has a case for. *)
Definition supported (node : Node) : bool :=
  match node with
  | NFuncDecl _ | NTypeSpec _ | NGenDecl _ => true
  | _ => false
  end.

(** The copy of a grouped declaration: documentation and parentheses
    cleared, and the given spec list. *)
Definition GenDecl_copy (d : GenDecl) (specs : list addr) : GenDecl :=
  {| gd_Doc := None; gd_TokPos := gd_TokPos d; gd_Tok := gd_Tok d;
     gd_Lparen := NoPos; gd_Specs := specs; gd_Rparen := NoPos |}.

(** A declaration without specs, or one whose first spec is neither a type
    spec nor a value spec (an import declaration): only the documentation
    of the copy is cleared. *)
Definition plain_specs (h : Heap) (d : GenDecl) : Prop :=
  match gd_Specs d with
  | [] => True
  | spec0 :: _ =>
      match h !! spec0 with
      | Some (NTypeSpec _) | Some (NValueSpec _) | None => False
      | Some _ => True
      end
  end.

Definition importSpecs_at (h : Heap) (specs : list addr) (l : list ImportSpec) : Prop :=
  Forall2 (fun a s => h !! a = Some (NImportSpec s)) specs l.

(** The invariant of go/ast on a grouped declaration: its specs are all of
    one kind.  Every other node is well formed when it is in the store. *)
Definition well_formed (h : Heap) (n : addr) : Prop :=
  match h !! n with
  | None => False
  | Some (NGenDecl d) =>
      (exists l, importSpecs_at h (gd_Specs d) l)
      \/ (exists l, typeSpecs_at h (gd_Specs d) l)
      \/ (exists l, valueSpecs_at h (gd_Specs d) l)
  | Some _ => True
  end.

(** [m] never returns a Go error. *)
Definition no_error {A} (m : M A) : Prop := forall h msg, (m h).1 <> Error msg.

(** The search the documentation of [findInBuiltin] describes: the first
    function of the name; failing that the first constant group binding it,
    then the first variable group, then the first type. *)
Inductive BuiltinMatch :=
| MatchFunc (f : DocFunc)
| MatchConst (v : DocValue)
| MatchVar (v : DocValue)
| MatchType (t : DocType)
| NoMatch.

Definition builtinMatch (pkg : DocPackage) (name : string) : BuiltinMatch :=
  let c := candidates pkg in
  match list_find (fun f => f_Name f = name) (funcs c) with
  | Some (_, f) => MatchFunc f
  | None =>
      match list_find (fun v => name ∈ v_Names v) (consts c) with
      | Some (_, v) => MatchConst v
      | None =>
          match list_find (fun v => name ∈ v_Names v) (vars c) with
          | Some (_, v) => MatchVar v
          | None =>
              match list_find (fun t => t_Name t = name) (p_Types pkg) with
              | Some (_, t) => MatchType t
              | None => NoMatch
              end
          end
      end
  end.

(** Some list of the search holds an entry of the name. *)
Definition in_catalogue (pkg : DocPackage) (name : string) : Prop :=
  let c := candidates pkg in
  (exists f, f ∈ funcs c /\ f_Name f = name)
  \/ (exists v, v ∈ consts c /\ name ∈ v_Names v)
  \/ (exists v, v ∈ vars c /\ name ∈ v_Names v)
  \/ (exists t, t ∈ p_Types pkg /\ t_Name t = name).

(** Every entry of the lists of the search has a documentation string. *)
Definition documented (pkg : DocPackage) : Prop :=
  let c := candidates pkg in
  (forall f, f ∈ funcs c -> f_Doc f <> "")
  /\ (forall v, v ∈ consts c -> v_Doc v <> "")
  /\ (forall v, v ∈ vars c -> v_Doc v <> "")
  /\ (forall t, t ∈ p_Types pkg -> t_Doc t <> "").


(** The documentation string of a match; empty when there is none. *)
Definition match_doc (m : BuiltinMatch) : string :=
  match m with
  | MatchFunc f => f_Doc f
  | MatchConst v | MatchVar v => v_Doc v
  | MatchType t => t_Doc t
  | NoMatch => ""
  end.

(** What [findInBuiltin] returns on a match. *)
Definition match_result (m : BuiltinMatch) (obj : Object) (prog : Program)
    : M (string * string) :=
  match m with
  | MatchFunc f =>
      let* decl := formatNode (f_Decl f) obj prog in ret (f_Doc f, decl)
  | MatchConst v | MatchVar v => ret (v_Doc v, "")
  | MatchType t =>
      let* decl := formatNode (t_Decl t) obj prog in ret (t_Doc t, decl)
  | NoMatch => ret ("", "")
  end.

(** The nodes at these addresses are identifiers. *)
Definition idents_at (h : Heap) (l : list addr) : Prop :=
  Forall (fun a => exists i, h !! a = Some (NIdent i)) l.

Definition is_ident (n : Node) : bool :=
  match n with NIdent _ => true | _ => false end.

(** A documentation text ends in the line [line]. *)
Definition ends_in_line (doc line : string) : Prop :=
  exists pre, doc = pre +:+ nl +:+ line.

(** How the rendered declaration of a builtin relates to its match. *)
Definition match_decl (m : BuiltinMatch) (obj : Object) (prog : Program)
    (h : Heap) (decl : string) : Prop :=
  match m with
  | MatchFunc f => exists h', formatNode (f_Decl f) obj prog h = (Ok decl, h')
  | MatchType t => exists h', formatNode (t_Decl t) obj prog h = (Ok decl, h')
  | MatchConst _ | MatchVar _ | NoMatch => decl = ""
  end.

(** The message of the error [IdentDoc] returns. *)
Definition not_found (obj : Object) : string :=
  "No documentation found for " +:+ obj_Name obj.

(** The end of the builtin branch, after the search. *)
Definition builtin_record (obj : Object) (pos : string) (r : string * string)
    : M Doc :=
  let '(doc, decl) := r in
  if negb (String.eqb doc "") then
    ret {| d_Import := "builtin"; d_Pkg := "builtin"; d_Name := obj_Name obj;
           d_Doc := doc; d_Decl := decl; d_Pos := pos |}
  else fail ("No documentation found for " +:+ obj_Name obj).

(** ** A worked program

    One store with a constant group, a function with a local variable, a
    type group and an import; a program over it; and a builtin catalogue. *)

Definition ex_ident (pos : nat) (name : string) : Ident :=
  {| id_NamePos := Z.of_nat pos; id_Name := name |}.

Definition ex_group_doc : CommentGroup := {| cg_Text := "Limits." +:+ nl |}.
Definition ex_spec_doc : CommentGroup := {| cg_Text := "The answer." +:+ nl |}.

Definition ex_Answer_spec : ValueSpec :=
  {| vs_Doc := None; vs_Names := [ex_ident 10 "Answer"]; vs_Type := None;
     vs_Values := ["42"]; vs_Comment := None |}.
Definition ex_Documented_spec : ValueSpec :=
  {| vs_Doc := Some ex_spec_doc; vs_Names := [ex_ident 30 "Documented"];
     vs_Type := None; vs_Values := ["7"]; vs_Comment := None |}.
Definition ex_const_decl : GenDecl :=
  {| gd_Doc := Some ex_group_doc; gd_TokPos := 1%Z; gd_Tok := CONST;
     gd_Lparen := 7%Z; gd_Specs := [1; 2]; gd_Rparen := 50%Z |}.
Definition ex_func : FuncDecl :=
  {| fd_Doc := Some {| cg_Text := "f does." +:+ nl |}; fd_Name := ex_ident 55 "f";
     fd_Type := "()"; fd_Body := Some "{ x := 1 }" |}.
Definition ex_A_spec : TypeSpec :=
  {| ts_Doc := Some {| cg_Text := "A." +:+ nl |}; ts_Name := ex_ident 70 "A";
     ts_Type := "int"; ts_Comment := None |}.
Definition ex_B_spec : TypeSpec :=
  {| ts_Doc := Some {| cg_Text := "B." +:+ nl |}; ts_Name := ex_ident 80 "B";
     ts_Type := "string"; ts_Comment := None |}.
Definition ex_type_decl : GenDecl :=
  {| gd_Doc := None; gd_TokPos := 65%Z; gd_Tok := TYPE;
     gd_Lparen := 69%Z; gd_Specs := [10; 11]; gd_Rparen := 90%Z |}.
Definition ex_len_decl : FuncDecl :=
  {| fd_Doc := Some {| cg_Text := "The len built-in function returns the length of v." +:+ nl |};
     fd_Name := ex_ident 0 "len"; fd_Type := "(v Type) int"; fd_Body := None |}.

Definition ex_heap : Heap :=
  [ (* 0 *) NIdent (ex_ident 10 "Answer");
    (* 1 *) NValueSpec ex_Answer_spec;
    (* 2 *) NValueSpec ex_Documented_spec;
    (* 3 *) NGenDecl ex_const_decl;
    (* 4 *) NOther "File";
    (* 5 *) NIdent (ex_ident 30 "Documented");
    (* 6 *) NIdent (ex_ident 60 "x");
    (* 7 *) NOther "AssignStmt";
    (* 8 *) NOther "BlockStmt";
    (* 9 *) NFuncDecl ex_func;
    (* 10 *) NTypeSpec ex_A_spec;
    (* 11 *) NTypeSpec ex_B_spec;
    (* 12 *) NGenDecl ex_type_decl;
    (* 13 *) NIdent (ex_ident 5 "format");
    (* 14 *) NFuncDecl ex_len_decl;
    (* 15 *) NIdent (ex_ident 100 "true");
    (* 16 *) NIdent (ex_ident 110 "extra") ].

(** A printer for the example: a function as its signature, a declaration
    of one type spec as a plain type declaration; it fails on the rest. *)
Definition ex_Fprint (h : Heap) (a : addr) : option string :=
  match h !! a with
  | Some (NFuncDecl d) => Some ("func " +:+ id_Name (fd_Name d) +:+ fd_Type d)
  | Some (NGenDecl d) =>
      match gd_Specs d with
      | [s] =>
          match h !! s with
          | Some (NTypeSpec ts) =>
              Some ("type " +:+ id_Name (ts_Name ts) +:+ " " +:+ ts_Type ts)
          | _ => None
          end
      | _ => None
      end
  | _ => None
  end.

Definition ex_pkg : TypesPackage :=
  {| tp_Path := "example.com/demo"; tp_Name := "demo" |}.

Definition ex_prog : Program :=
  {| prog_Fprint := ex_Fprint;
     prog_Position := fun _ => "demo.go";
     prog_Path := fun _ pos =>
       if Z.eqb pos 10%Z then Some [0; 1; 3; 4]
       else if Z.eqb pos 30%Z then Some [5; 2; 3; 4]
       else if Z.eqb pos 60%Z then Some [6; 7; 8; 9; 4]
       else None |}.

Definition ex_Answer : Object :=
  {| obj_Kind := KConst "42"; obj_Pos := 10%Z; obj_Pkg := Some ex_pkg;
     obj_Name := "Answer"; obj_String := "const example.com/demo.Answer untyped int" |}.
Definition ex_Documented : Object :=
  {| obj_Kind := KConst "7"; obj_Pos := 30%Z; obj_Pkg := Some ex_pkg;
     obj_Name := "Documented";
     obj_String := "const example.com/demo.Documented untyped int" |}.
Definition ex_x : Object :=
  {| obj_Kind := KVar false; obj_Pos := 60%Z; obj_Pkg := Some ex_pkg;
     obj_Name := "x"; obj_String := "var x int" |}.
Definition ex_B : Object :=
  {| obj_Kind := KTypeName; obj_Pos := 80%Z; obj_Pkg := Some ex_pkg;
     obj_Name := "B"; obj_String := "type example.com/demo.B string" |}.
Definition ex_format : Object :=
  {| obj_Kind := KPkgName {| tp_Path := "fmt"; tp_Name := "fmt" |};
     obj_Pos := 5%Z; obj_Pkg := Some ex_pkg;
     obj_Name := "format"; obj_String := "package format (fmt)" |}.
Definition ex_true : Object :=
  {| obj_Kind := KConst "true"; obj_Pos := NoPos; obj_Pkg := None;
     obj_Name := "true"; obj_String := "const true untyped bool" |}.
Definition ex_extra : Object :=
  {| obj_Kind := KBuiltin; obj_Pos := NoPos; obj_Pkg := None;
     obj_Name := "extra"; obj_String := "builtin extra" |}.

Definition ex_loader : LoaderPackage :=
  {| ObjectOf := fun id =>
       match id with
       | 0 => Some ex_Answer
       | 5 => Some ex_Documented
       | 6 => Some ex_x
       | 13 => Some ex_format
       | 15 => Some ex_true
       | 16 => Some ex_extra
       | _ => None
       end;
     Uses := ∅ |}.

Definition ex_true_false : DocValue :=
  {| v_Doc := "true and false are the two untyped boolean values." +:+ nl;
     v_Names := ["true"; "false"]; v_Decl := 3 |}.
Definition ex_len : DocFunc :=
  {| f_Doc := "The len built-in function returns the length of v." +:+ nl;
     f_Name := "len"; f_Decl := 14 |}.

(** A catalogue in the shape of builtin.go, with one function that has no
    documentation comment. *)
Definition ex_builtin : DocPackage :=
  {| p_Doc := "Package builtin provides documentation for Go's predeclared identifiers.";
     p_Name := "builtin";
     p_Consts := [ex_true_false];
     p_Types := [];
     p_Vars := [];
     p_Funcs := [ex_len; {| f_Doc := ""; f_Name := "extra"; f_Decl := 14 |}] |}.

(** A catalogue in which the name [len] is in two lists. *)
Definition ex_clash : DocPackage :=
  {| p_Doc := ""; p_Name := "builtin";
     p_Consts := [];
     p_Types := [{| t_Doc := "A type called len."; t_Name := "len"; t_Decl := 12;
                    t_Consts := []; t_Vars := []; t_Funcs := [] |}];
     p_Vars := [];
     p_Funcs := [ex_len] |}.

Definition ex_ctx : BuildContext :=
  {| ctxt_Import := fun path _ =>
       if String.eqb path "fmt"
       then Ok {| bp_Name := "fmt"; bp_Dir := "/go/src/fmt";
                  bp_GoFiles := ["doc.go"; "print.go"] |}
       else Error ("cannot find package " +:+ path) |}.

Definition ex_ParseDir (dir : string) (filter : string -> bool)
    : outcome (gmap string unit) :=
  if filter "doc.go" then Ok {[ "fmt" := tt ]} else Ok ∅.

Definition ex_docNew (_ : unit) (importPath : string) : DocPackage :=
  {| p_Doc := "Package fmt implements formatted I/O."; p_Name := "fmt";
     p_Consts := []; p_Types := []; p_Vars := []; p_Funcs := [] |}.



(** [IdentDoc] on an identifier of the example. *)
Definition ex_IdentDoc (id : addr) : outcome Doc * Heap :=
  IdentDoc ex_builtin unit ex_ParseDir ex_docNew ex_ctx id ex_loader ex_prog ex_heap.

Definition ex_ToText (text ind pre : string) (width : nat) : string := text +:+ nl.

(** A suffix test, for documentation texts that are known. *)
Fixpoint string_drop (n : nat) (s : string) : string :=
  match n, s with
  | O, _ => s
  | S n, String _ s' => string_drop n s'
  | S _, EmptyString => EmptyString
  end.

Definition ends_with (doc suf : string) : bool :=
  Nat.leb (String.length suf) (String.length doc)
  && String.eqb (string_drop (String.length doc - String.length suf) doc) suf.

(** Every error [m] returns carries the message [msg]. *)
Definition errors_with {A} (msg : string) (m : M A) : Prop :=
  forall h e, (m h).1 = Error e -> e = msg.

(** The record of the first loop of [IdentDoc], before the second loop
    fills in the documentation. *)
Definition located (obj : Object) (p : TypesPackage) (prog : Program)
    (decl : string) : Doc :=
  {| d_Import := tp_Path p; d_Pkg := tp_Name p; d_Name := obj_Name obj;
     d_Decl := decl; d_Doc := "";
     d_Pos := if IsValid (obj_Pos obj) then prog_Position prog (obj_Pos obj)
              else "" |}.

(** The documentation of a spec by its own comments: the leading one, else
    the trailing one. *)
Definition own_doc (doc comment : option CommentGroup) : option string :=
  match doc, comment with
  | Some g, _ => Some (cg_Text g)
  | None, Some g => Some (cg_Text g)
  | None, None => None
  end.

(** The line the second loop appends for a constant. *)
Definition value_line (obj : Object) : string :=
  match obj_Kind obj with
  | KConst exact =>
      if String.eqb exact "" then "" else nl +:+ "Constant Value: " +:+ exact
  | _ => ""
  end.

(** ** A second worked program

    A library file: an undocumented function, a struct type with a field
    and an embedded field, two variables, an import, and an identifier
    whose path holds nothing but itself. *)

Definition ex2_T_spec : TypeSpec :=
  {| ts_Doc := None; ts_Name := ex_ident 20 "T"; ts_Type := "struct { Size int; T }";
     ts_Comment := None |}.
Definition ex2_T_decl : GenDecl :=
  {| gd_Doc := Some {| cg_Text := "T is a thing." +:+ nl |}; gd_TokPos := 15%Z;
     gd_Tok := TYPE; gd_Lparen := NoPos; gd_Specs := [7]; gd_Rparen := NoPos |}.
Definition ex2_f_decl : FuncDecl :=
  {| fd_Doc := None; fd_Name := ex_ident 10 "f"; fd_Type := "(n int) int";
     fd_Body := Some "{ return n }" |}.
Definition ex2_Size_field : Field :=
  {| fl_Doc := None; fl_Names := [ex_ident 30 "Size"]; fl_Type := "int";
     fl_Comment := Some {| cg_Text := "in bytes" +:+ nl |} |}.
Definition ex2_v_spec : ValueSpec :=
  {| vs_Doc := None; vs_Names := [ex_ident 50 "v"; ex_ident 53 "v2"];
     vs_Type := Some "int"; vs_Values := [];
     vs_Comment := Some {| cg_Text := "the v" +:+ nl |} |}.
Definition ex2_v_decl : GenDecl :=
  {| gd_Doc := Some {| cg_Text := "Vars." +:+ nl |}; gd_TokPos := 46%Z;
     gd_Tok := VAR; gd_Lparen := NoPos; gd_Specs := [13]; gd_Rparen := NoPos |}.
Definition ex2_w_spec : ValueSpec :=
  {| vs_Doc := None; vs_Names := [ex_ident 60 "w"]; vs_Type := Some "int";
     vs_Values := []; vs_Comment := None |}.
Definition ex2_w_decl : GenDecl :=
  {| gd_Doc := Some {| cg_Text := "W doc." +:+ nl |}; gd_TokPos := 56%Z;
     gd_Tok := VAR; gd_Lparen := 59%Z; gd_Specs := [16]; gd_Rparen := 69%Z |}.
Definition ex2_import_spec : ImportSpec :=
  {| is_Doc := None; is_Name := None; is_Path := dquote +:+ "fmt" +:+ dquote;
     is_Comment := None |}.
Definition ex2_import_decl : GenDecl :=
  {| gd_Doc := Some {| cg_Text := "Imports." +:+ nl |}; gd_TokPos := 1%Z;
     gd_Tok := IMPORT; gd_Lparen := 8%Z; gd_Specs := [19]; gd_Rparen := 14%Z |}.

Definition ex2_heap : Heap :=
  [ (* 0 *) NIdent (ex_ident 10 "f");
    (* 1 *) NFuncDecl ex2_f_decl;
    (* 2 *) NOther "File";
    (* 3 *) NIdent (ex_ident 30 "Size");
    (* 4 *) NField ex2_Size_field;
    (* 5 *) NOther "FieldList";
    (* 6 *) NOther "StructType";
    (* 7 *) NTypeSpec ex2_T_spec;
    (* 8 *) NGenDecl ex2_T_decl;
    (* 9 *) NIdent (ex_ident 20 "T");
    (* 10 *) NIdent (ex_ident 40 "T");
    (* 11 *) NField {| fl_Doc := None; fl_Names := []; fl_Type := "T";
                       fl_Comment := None |};
    (* 12 *) NIdent (ex_ident 50 "v");
    (* 13 *) NValueSpec ex2_v_spec;
    (* 14 *) NGenDecl ex2_v_decl;
    (* 15 *) NIdent (ex_ident 60 "w");
    (* 16 *) NValueSpec ex2_w_spec;
    (* 17 *) NGenDecl ex2_w_decl;
    (* 18 *) NIdent (ex_ident 70 "lost");
    (* 19 *) NImportSpec ex2_import_spec;
    (* 20 *) NGenDecl ex2_import_decl ].

Definition ex2_pkg : TypesPackage :=
  {| tp_Path := "example.com/lib"; tp_Name := "lib" |}.

Definition ex2_prog : Program :=
  {| prog_Fprint := ex_Fprint;
     prog_Position := fun _ => "lib.go";
     prog_Path := fun _ pos =>
       if Z.eqb pos 10%Z then Some [0; 1; 2]
       else if Z.eqb pos 20%Z then Some [9; 7; 8; 2]
       else if Z.eqb pos 30%Z then Some [3; 4; 5; 6; 7; 8; 2]
       else if Z.eqb pos 50%Z then Some [12; 13; 14; 2]
       else if Z.eqb pos 60%Z then Some [15; 16; 17; 2]
       else if Z.eqb pos 70%Z then Some [18]
       else None |}.

Definition ex2_f : Object :=
  {| obj_Kind := KFunc; obj_Pos := 10%Z; obj_Pkg := Some ex2_pkg;
     obj_Name := "f"; obj_String := "func example.com/lib.f(n int) int" |}.
Definition ex2_T : Object :=
  {| obj_Kind := KTypeName; obj_Pos := 20%Z; obj_Pkg := Some ex2_pkg;
     obj_Name := "T"; obj_String := "type example.com/lib.T struct{...}" |}.
Definition ex2_Size : Object :=
  {| obj_Kind := KVar false; obj_Pos := 30%Z; obj_Pkg := Some ex2_pkg;
     obj_Name := "Size"; obj_String := "field Size int" |}.
Definition ex2_embedded : Object :=
  {| obj_Kind := KVar true; obj_Pos := 40%Z; obj_Pkg := Some ex2_pkg;
     obj_Name := "T"; obj_String := "field T example.com/lib.T" |}.
Definition ex2_v : Object :=
  {| obj_Kind := KVar false; obj_Pos := 50%Z; obj_Pkg := Some ex2_pkg;
     obj_Name := "v"; obj_String := "var example.com/lib.v int" |}.
Definition ex2_w : Object :=
  {| obj_Kind := KVar false; obj_Pos := 60%Z; obj_Pkg := Some ex2_pkg;
     obj_Name := "w"; obj_String := "var example.com/lib.w int" |}.
Definition ex2_lost : Object :=
  {| obj_Kind := KVar false; obj_Pos := 70%Z; obj_Pkg := Some ex2_pkg;
     obj_Name := "lost"; obj_String := "var lost int" |}.

Definition ex2_loader : LoaderPackage :=
  {| ObjectOf := fun id =>
       match id with
       | 0 => Some ex2_f
       | 3 => Some ex2_Size
       | 9 => Some ex2_T
       | 10 => Some ex2_embedded
       | 12 => Some ex2_v
       | 15 => Some ex2_w
       | 18 => Some ex2_lost
       | _ => None
       end;
     Uses := {[ 10 := ex2_T ]} |}.

(** [IdentDoc] on an identifier of the second example. *)
Definition ex2_IdentDoc (id : addr) : outcome Doc * Heap :=
  IdentDoc ex_clash unit ex_ParseDir ex_docNew ex_ctx id ex2_loader ex2_prog ex2_heap.

(** * Properties *)

(** ** The store monad *)

Section MonadFacts.
Context {A B : Type}.

Lemma bind_Ok (m : M A) (k : A -> M B) h a h' :
  m h = (Ok a, h') -> bind m k h = k a h'.
Proof. intros E. unfold bind. now rewrite E. Qed.

Lemma bind_Error (m : M A) (k : A -> M B) h e h' :
  m h = (Error e, h') -> bind m k h = (Error e, h').
Proof. intros E. unfold bind. now rewrite E. Qed.

Lemma bind_Panic (m : M A) (k : A -> M B) h h' :
  m h = (Panic, h') -> bind m k h = (Panic, h').
Proof. intros E. unfold bind. now rewrite E. Qed.

Lemma bind_ret (a : A) (k : A -> M B) h : bind (ret a) k h = k a h.
Proof. reflexivity. Qed.

Lemma bind_inv_Ok (m : M A) (k : A -> M B) h b h'' :
  bind m k h = (Ok b, h'') ->
  exists a h', m h = (Ok a, h') /\ k a h' = (Ok b, h'').
Proof.
  unfold bind. destruct (m h) as [[a|e|] h'] eqn:E; intros H; try discriminate.
  eauto.
Qed.

End MonadFacts.

Lemma load_Some h a n : h !! a = Some n -> load a h = (Ok n, h).
Proof. intros E. unfold load. now rewrite E. Qed.

Lemma load_None h (a : addr) : h !! a = None -> load a h = (Panic, h).
Proof. intros E. unfold load. now rewrite E. Qed.

Lemma load_inv h a r h' : load a h = (r, h') -> h' = h.
Proof. unfold load. destruct (h !! a); congruence. Qed.

Lemma lookup_fresh (h1 : Heap) n l : (h1 ++ n :: l) !! length h1 = Some n.
Proof. now apply list_lookup_middle. Qed.

Lemma store_fresh (h1 : Heap) n n' l :
  store (length h1) n' (h1 ++ n :: l) = (Ok tt, h1 ++ n' :: l).
Proof.
  unfold store. rewrite lookup_fresh. f_equal.
  rewrite insert_app_r_alt by lia. now rewrite Nat.sub_diag.
Qed.

Lemma update_FuncDecl_fresh (h1 : Heap) d l f :
  update_FuncDecl (length h1) f (h1 ++ NFuncDecl d :: l)
  = (Ok tt, h1 ++ NFuncDecl (f d) :: l).
Proof.
  unfold update_FuncDecl. rewrite (bind_Ok _ _ _ _ _ (load_Some _ _ _ (lookup_fresh _ _ _))).
  apply store_fresh.
Qed.

Lemma update_GenDecl_fresh (h1 : Heap) d l f :
  update_GenDecl (length h1) f (h1 ++ NGenDecl d :: l)
  = (Ok tt, h1 ++ NGenDecl (f d) :: l).
Proof.
  unfold update_GenDecl. rewrite (bind_Ok _ _ _ _ _ (load_Some _ _ _ (lookup_fresh _ _ _))).
  apply store_fresh.
Qed.

Lemma update_TypeSpec_fresh (h1 : Heap) s l f :
  update_TypeSpec (length h1) f (h1 ++ NTypeSpec s :: l)
  = (Ok tt, h1 ++ NTypeSpec (f s) :: l).
Proof.
  unfold update_TypeSpec. rewrite (bind_Ok _ _ _ _ _ (load_Some _ _ _ (lookup_fresh _ _ _))).
  apply store_fresh.
Qed.

Lemma update_ValueSpec_fresh (h1 : Heap) s l f :
  update_ValueSpec (length h1) f (h1 ++ NValueSpec s :: l)
  = (Ok tt, h1 ++ NValueSpec (f s) :: l).
Proof.
  unfold update_ValueSpec. rewrite (bind_Ok _ _ _ _ _ (load_Some _ _ _ (lookup_fresh _ _ _))).
  apply store_fresh.
Qed.

(** ** Computations that only extend the store

    [framed h0 m Q]: run from any store that extends [h0], [m] ends in a
    store that extends [h0], and a value it returns satisfies [Q].  Writes
    are allowed, but only to addresses past [h0]. *)

Lemma framed_weaken {A} h0 (m : M A) (Q R : A -> Prop) :
  framed h0 m Q -> (forall a, Q a -> R a) -> framed h0 m R.
Proof.
  intros Hm HQR l. destruct (Hm l) as (l' & E & HQ).
  exists l'. split; [done | eauto].
Qed.

Lemma framed_ret {A} h0 (a : A) (Q : A -> Prop) : Q a -> framed h0 (ret a) Q.
Proof. intros HQ l. exists l. split; [done | ]. intros a' [= <-]. done. Qed.

Lemma framed_panic {A} h0 (Q : A -> Prop) : framed h0 panic Q.
Proof. intros l. exists l. split; [done | ]. intros a' [=]. Qed.

Lemma framed_fail {A} h0 msg (Q : A -> Prop) : framed h0 (fail msg) Q.
Proof. intros l. exists l. split; [done | ]. intros a' [=]. Qed.

Lemma framed_lift {A} h0 (o : outcome A) : framed h0 (lift o) (fun _ => True).
Proof. intros l. exists l. split; done. Qed.

Lemma framed_bind {A B} h0 (m : M A) (k : A -> M B) Q R :
  framed h0 m Q -> (forall a, Q a -> framed h0 (k a) R) ->
  framed h0 (bind m k) R.
Proof.
  intros Hm Hk l. destruct (Hm l) as (l1 & E1 & HQ). unfold bind.
  destruct (m (h0 ++ l)) as [[a|e|] h1]; simpl in *; subst h1.
  - apply (Hk a (HQ a eq_refl)).
  - exists l1. split; [done | ]. intros ? [=].
  - exists l1. split; [done | ]. intros ? [=].
Qed.

Lemma framed_load h0 a : framed h0 (load a) (fun _ => True).
Proof.
  intros l. exists l. unfold load. case_match; split; done.
Qed.

Lemma framed_alloc h0 n : framed h0 (alloc n) (fun a => length h0 <= a).
Proof.
  intros l. exists (l ++ [n]). unfold alloc. simpl. split.
  - now rewrite app_assoc.
  - intros a [= <-]. rewrite length_app. lia.
Qed.

Lemma framed_store h0 a n :
  length h0 <= a -> framed h0 (store a n) (fun _ => True).
Proof.
  intros Ha l. unfold store. case_match.
  - exists (<[a - length h0 := n]> l). simpl. split; [ | done].
    now apply insert_app_r_alt.
  - exists l. split; done.
Qed.

Create HintDb framed.
#[local] Hint Resolve framed_ret framed_panic framed_fail framed_load
  framed_alloc framed_store framed_lift : framed.

Ltac framed_step :=
  match goal with
  | |- framed _ (bind (alloc _) _) _ =>
      eapply framed_bind; [apply framed_alloc | cbv beta; intros ? ?]
  | |- framed _ (bind _ _) _ =>
      eapply (framed_bind _ _ _ (fun _ => True)); [ | intros ? _]
  | |- framed _ (match ?x with _ => _ end) _ => destruct x
  | |- framed _ (if ?b then _ else _) _ => destruct b
  | |- framed _ _ _ => solve [eauto with framed]
  end.

Lemma framed_update_FuncDecl h0 a f :
  length h0 <= a -> framed h0 (update_FuncDecl a f) (fun _ => True).
Proof. intros Ha. unfold update_FuncDecl. repeat framed_step. Qed.

Lemma framed_update_GenDecl h0 a f :
  length h0 <= a -> framed h0 (update_GenDecl a f) (fun _ => True).
Proof. intros Ha. unfold update_GenDecl. repeat framed_step. Qed.

Lemma framed_update_TypeSpec h0 a f :
  length h0 <= a -> framed h0 (update_TypeSpec a f) (fun _ => True).
Proof. intros Ha. unfold update_TypeSpec. repeat framed_step. Qed.

Lemma framed_update_ValueSpec h0 a f :
  length h0 <= a -> framed h0 (update_ValueSpec a f) (fun _ => True).
Proof. intros Ha. unfold update_ValueSpec. repeat framed_step. Qed.

#[local] Hint Resolve framed_update_FuncDecl framed_update_GenDecl
  framed_update_TypeSpec framed_update_ValueSpec : framed.

Lemma framed_findTypeSpec_loop h0 specs pos :
  framed h0 (findTypeSpec_loop specs pos) (fun _ => True).
Proof. induction specs as [|spec rest IH]; simpl; repeat framed_step. Qed.

Lemma framed_findVarSpec_loop h0 specs pos :
  framed h0 (findVarSpec_loop specs pos) (fun _ => True).
Proof. induction specs as [|spec rest IH]; simpl; repeat framed_step. Qed.

#[local] Hint Resolve framed_findTypeSpec_loop framed_findVarSpec_loop : framed.

Lemma framed_formatNode_copy h0 n obj :
  framed h0 (formatNode_copy n obj) (fun _ => True).
Proof.
  unfold formatNode_copy, findTypeSpec, findVarSpec. repeat framed_step.
Qed.

Lemma framed_formatNode_print h0 nc obj prog :
  framed h0 (formatNode_print nc obj prog) (fun _ => True).
Proof.
  intros l. exists l. unfold formatNode_print.
  destruct (prog_Fprint prog (h0 ++ l) nc); split; done.
Qed.

#[local] Hint Resolve framed_formatNode_copy framed_formatNode_print : framed.

Lemma framed_formatNode h0 n obj prog :
  framed h0 (formatNode n obj prog) (fun _ => True).
Proof. unfold formatNode. repeat framed_step. Qed.

#[local] Hint Resolve framed_formatNode : framed.

(** What [framed] gives for a run from [h0] itself. *)
Lemma framed_prefix {A} h0 (m : M A) Q : framed h0 m Q -> h0 `prefix_of` (m h0).2.
Proof.
  intros Hm. destruct (Hm []) as (l' & E & _). rewrite app_nil_r in E.
  exists l'. done.
Qed.

Lemma framed_lookup {A} h0 (m : M A) Q a :
  framed h0 m Q -> a < length h0 -> (m h0).2 !! a = h0 !! a.
Proof.
  intros Hm Ha. destruct (framed_prefix _ _ _ Hm) as [l' ->].
  now apply lookup_app_l.
Qed.

(** ** The spec searches *)

Lemma typeSpecs_at_app h h2 specs l :
  typeSpecs_at h specs l -> typeSpecs_at (h ++ h2) specs l.
Proof.
  unfold typeSpecs_at. intros H. eapply Forall2_impl; [exact H | ].
  intros a ts E. now apply lookup_app_l_Some.
Qed.

Lemma valueSpecs_at_app h h2 specs l :
  valueSpecs_at h specs l -> valueSpecs_at (h ++ h2) specs l.
Proof.
  unfold valueSpecs_at. intros H. eapply Forall2_impl; [exact H | ].
  intros a ts E. now apply lookup_app_l_Some.
Qed.

(** On a declaration of type specs, [findTypeSpec] is the first spec at the
    position, and it leaves the store alone. *)
Lemma findTypeSpec_loop_typed h specs l pos :
  typeSpecs_at h specs l ->
  findTypeSpec_loop specs pos h
  = (Ok (pointed specs (list_find (fun ts => TypeSpec_Pos ts = pos) l)), h).
Proof.
  induction 1 as [|a ts specs l Ha Hrest IH]; [done | ].
  simpl. rewrite (bind_Ok _ _ _ _ _ (load_Some _ _ _ Ha)).
  destruct (Z.eqb_spec (TypeSpec_Pos ts) pos) as [E|E].
  - rewrite decide_True by done. done.
  - rewrite decide_False by done. rewrite IH.
    destruct (list_find _ l) as [[i s]|]; simpl; [ | done].
    now destruct (specs !! i).
Qed.

Lemma hasNameAt_spec pos names :
  hasNameAt pos names = true <-> exists ident, ident ∈ names /\ id_NamePos ident = pos.
Proof.
  unfold hasNameAt. rewrite existsb_exists. split.
  - intros (i & Hi & E). exists i. split; [now apply list_elem_of_In | ].
    now apply Z.eqb_eq.
  - intros (i & Hi & E). exists i. split; [now apply list_elem_of_In | ].
    now apply Z.eqb_eq.
Qed.

Lemma findVarSpec_loop_typed h specs l pos :
  valueSpecs_at h specs l ->
  findVarSpec_loop specs pos h
  = (Ok (pointed specs (list_find (fun vs => hasNameAt pos (vs_Names vs) = true) l)), h).
Proof.
  induction 1 as [|a vs specs l Ha Hrest IH]; [done | ].
  simpl. rewrite (bind_Ok _ _ _ _ _ (load_Some _ _ _ Ha)).
  destruct (hasNameAt pos (vs_Names vs)) eqn:E.
  - rewrite decide_True by done. done.
  - rewrite decide_False by congruence. rewrite IH.
    destruct (list_find _ l) as [[i s]|]; simpl; [ | done].
    now destruct (specs !! i).
Qed.

Lemma list_find_only_at {S} (P : S -> Prop) `{forall x, Decision (P x)} l i s :
  only_at P l i s -> list_find P l = Some (i, s).
Proof.
  intros (Hi & HP & Huniq). apply list_find_Some. repeat split; [done.. | ].
  intros j y Hj Hlt HPy. specialize (Huniq j y Hj HPy). lia.
Qed.

(** ** Evaluating formatNode *)

Lemma bind_assoc {A B C} (m : M A) (k : A -> M B) (k' : B -> M C) h :
  bind (bind m k) k' h = bind m (fun x => bind (k x) k') h.
Proof. unfold bind. destruct (m h) as [[a|e|] h']; reflexivity. Qed.

Lemma alloc_eq n h : alloc n h = (Ok (length h), h ++ [n]).
Proof. reflexivity. Qed.

Lemma app_two {X} (h : list X) a b : (h ++ [a]) ++ [b] = h ++ [a; b].
Proof. now rewrite <- app_assoc. Qed.

(** One step of symbolic execution of a computation applied to a store. *)
Ltac run_step :=
  first
    [ rewrite bind_ret
    | rewrite bind_assoc
    | erewrite bind_Ok;
      [ | first [ apply alloc_eq
                | apply load_Some; eassumption
                | apply update_FuncDecl_fresh
                | apply update_GenDecl_fresh
                | apply update_TypeSpec_fresh
                | apply update_ValueSpec_fresh ] ] ];
  cbv beta iota.

Lemma formatNode_copy_unsupported h n node obj :
  h !! n = Some node -> supported node = false ->
  formatNode_copy n obj h = (Ok None, h).
Proof.
  intros Hn Hk. unfold formatNode_copy. run_step.
  destruct node; try discriminate; reflexivity.
Qed.

Lemma formatNode_copy_FuncDecl h n d obj :
  h !! n = Some (NFuncDecl d) ->
  formatNode_copy n obj h
  = (Ok (Some (length h)),
     h ++ [NFuncDecl {| fd_Doc := None; fd_Name := fd_Name d;
                        fd_Type := fd_Type d; fd_Body := None |}]).
Proof.
  intros Hn. unfold formatNode_copy. repeat run_step. reflexivity.
Qed.

Lemma formatNode_copy_TypeSpec h n s obj :
  h !! n = Some (NTypeSpec s) ->
  formatNode_copy n obj h
  = (Ok (Some (length h + 1)),
     h ++ [NTypeSpec (ts_set_Doc None s);
           NGenDecl {| gd_Doc := None; gd_TokPos := NoPos; gd_Tok := TYPE;
                       gd_Lparen := NoPos; gd_Specs := [length h];
                       gd_Rparen := NoPos |}]).
Proof.
  intros Hn. unfold formatNode_copy. repeat run_step.
  unfold ret. rewrite app_two, length_app. reflexivity.
Qed.

Lemma formatNode_copy_GenDecl_types h n d l obj :
  h !! n = Some (NGenDecl d) ->
  typeSpecs_at h (gd_Specs d) l -> l <> [] ->
  formatNode_copy n obj h
  = (Ok (Some (length h)),
     match pointed (gd_Specs d)
             (list_find (fun ts => TypeSpec_Pos ts = obj_Pos obj) l) with
     | Some (_, ts) =>
         h ++ [NGenDecl (GenDecl_copy d [length h + 1]);
               NTypeSpec (ts_set_Doc None ts)]
     | None => h ++ [NGenDecl (GenDecl_copy d (gd_Specs d))]
     end).
Proof.
  intros Hn Hl Hne. unfold formatNode_copy, findTypeSpec. do 3 run_step.
  set (h1 := h ++ [NGenDecl (gd_set_Doc None d)]).
  assert (Hl1 : typeSpecs_at h1 (gd_Specs d) l) by now apply typeSpecs_at_app.
  pose proof (findTypeSpec_loop_typed _ _ _ (obj_Pos obj) Hl1) as Hfind.
  revert Hfind. generalize (list_find (fun ts => TypeSpec_Pos ts = obj_Pos obj) l).
  intros found Hfind.
  destruct (gd_Specs d) as [|spec0 rest] eqn:Hspecs;
    inversion Hl1 as [|? ts0 ? l' H0 Hrest]; subst; [done | ].
  repeat run_step. erewrite bind_Ok; [ | exact Hfind]. cbv beta iota.
  destruct (pointed (spec0 :: rest) found) as [[a ts]|]; subst h1.
  - repeat run_step. rewrite app_two. repeat run_step.
    unfold ret. rewrite length_app. reflexivity.
  - repeat run_step. unfold ret, GenDecl_copy. rewrite <- Hspecs. reflexivity.
Qed.

Lemma formatNode_copy_GenDecl_values h n d l obj :
  h !! n = Some (NGenDecl d) ->
  valueSpecs_at h (gd_Specs d) l -> l <> [] ->
  formatNode_copy n obj h
  = (Ok (Some (length h)),
     match pointed (gd_Specs d)
             (list_find (fun vs => hasNameAt (obj_Pos obj) (vs_Names vs) = true) l) with
     | Some (_, vs) =>
         h ++ [NGenDecl (GenDecl_copy d [length h + 1]);
               NValueSpec (vs_set_Doc None vs)]
     | None => h ++ [NGenDecl (GenDecl_copy d (gd_Specs d))]
     end).
Proof.
  intros Hn Hl Hne. unfold formatNode_copy, findVarSpec. do 3 run_step.
  set (h1 := h ++ [NGenDecl (gd_set_Doc None d)]).
  assert (Hl1 : valueSpecs_at h1 (gd_Specs d) l) by now apply valueSpecs_at_app.
  pose proof (findVarSpec_loop_typed _ _ _ (obj_Pos obj) Hl1) as Hfind.
  revert Hfind.
  generalize (list_find (fun vs => hasNameAt (obj_Pos obj) (vs_Names vs) = true) l).
  intros found Hfind.
  destruct (gd_Specs d) as [|spec0 rest] eqn:Hspecs;
    inversion Hl1 as [|? vs0 ? l' H0 Hrest]; subst; [done | ].
  repeat run_step. erewrite bind_Ok; [ | exact Hfind]. cbv beta iota.
  destruct (pointed (spec0 :: rest) found) as [[a vs]|]; subst h1.
  - repeat run_step. rewrite app_two. repeat run_step.
    unfold ret. rewrite length_app. reflexivity.
  - repeat run_step. unfold ret, GenDecl_copy. rewrite <- Hspecs. reflexivity.
Qed.

Lemma formatNode_copy_GenDecl_plain h n d obj :
  h !! n = Some (NGenDecl d) -> plain_specs h d ->
  formatNode_copy n obj h
  = (Ok (Some (length h)), h ++ [NGenDecl (gd_set_Doc None d)]).
Proof.
  intros Hn Hp. unfold formatNode_copy. do 3 run_step.
  unfold plain_specs in Hp. destruct (gd_Specs d) as [|spec0 rest].
  - repeat run_step. reflexivity.
  - destruct (h !! spec0) as [s0|] eqn:H0; [ | done].
    pose proof (lookup_app_l_Some _ [NGenDecl (gd_set_Doc None d)] _ _ H0).
    destruct s0; try done; repeat run_step; reflexivity.
Qed.

Lemma formatNode_copy_total h n obj :
  well_formed h n -> exists nc h', formatNode_copy n obj h = (Ok nc, h').
Proof.
  unfold well_formed. destruct (h !! n) as [node|] eqn:Hn; [ | done].
  destruct node;
    try (intros _; erewrite formatNode_copy_unsupported by (eassumption || done);
         eauto).
  - intros _. erewrite formatNode_copy_FuncDecl by done. eauto.
  - intros [[l Hl]|[[l Hl]|[l Hl]]].
    + erewrite formatNode_copy_GenDecl_plain; [eauto | done | ].
      unfold plain_specs. destruct Hl as [|a s ? ? Ha _]; [done | ].
      now rewrite Ha.
    + destruct (decide (l = [])) as [->|Hne].
      * erewrite formatNode_copy_GenDecl_plain; [eauto | done | ].
        unfold plain_specs. now inversion Hl.
      * erewrite formatNode_copy_GenDecl_types by done. eauto.
    + destruct (decide (l = [])) as [->|Hne].
      * erewrite formatNode_copy_GenDecl_plain; [eauto | done | ].
        unfold plain_specs. now inversion Hl.
      * erewrite formatNode_copy_GenDecl_values by done. eauto.
  - intros _. erewrite formatNode_copy_TypeSpec by done. eauto.
Qed.

Lemma formatNode_of_copy h n obj prog nc h' :
  formatNode_copy n obj h = (Ok (Some nc), h') ->
  formatNode n obj prog h
  = (Ok (default (obj_String obj) (prog_Fprint prog h' nc)), h').
Proof.
  intros E. unfold formatNode. rewrite (bind_Ok _ _ _ _ _ E).
  unfold formatNode_print. now destruct (prog_Fprint prog h' nc).
Qed.

Lemma formatNode_unsupported h n node obj prog :
  h !! n = Some node -> supported node = false ->
  formatNode n obj prog h = (Ok (obj_String obj), h).
Proof.
  intros Hn Hk. unfold formatNode.
  now rewrite (bind_Ok _ _ _ _ _ (formatNode_copy_unsupported _ _ _ obj Hn Hk)).
Qed.

Lemma formatNode_total h n obj prog :
  well_formed h n -> exists s h', formatNode n obj prog h = (Ok s, h').
Proof.
  intros Hwf. destruct (formatNode_copy_total h n obj Hwf) as ([nc|] & h' & E).
  - rewrite (formatNode_of_copy _ _ _ prog _ _ E). eauto.
  - unfold formatNode. rewrite (bind_Ok _ _ _ _ _ E). eauto.
Qed.

(** ** Computations that return no error *)

Lemma no_error_ret {A} (a : A) : no_error (ret a).
Proof. intros h msg. done. Qed.

Lemma no_error_panic {A} : no_error (@panic A).
Proof. intros h msg. done. Qed.

Lemma no_error_bind {A B} (m : M A) (k : A -> M B) :
  no_error m -> (forall a, no_error (k a)) -> no_error (bind m k).
Proof.
  intros Hm Hk h msg. unfold bind. specialize (Hm h).
  destruct (m h) as [[a|e|] h1]; simpl in *.
  - apply Hk.
  - now destruct (Hm e).
  - done.
Qed.

Lemma no_error_load a : no_error (load a).
Proof. intros h msg. unfold load. now case_match. Qed.

Lemma no_error_alloc n : no_error (alloc n).
Proof. intros h msg. done. Qed.

Lemma no_error_store a n : no_error (store a n).
Proof. intros h msg. unfold store. now case_match. Qed.

Create HintDb no_error.
#[local] Hint Resolve no_error_ret no_error_panic no_error_load no_error_alloc
  no_error_store : no_error.

Ltac no_error_step :=
  match goal with
  | |- no_error (bind _ _) => apply no_error_bind; [ | intros ?]
  | |- no_error (match ?x with _ => _ end) => destruct x
  | |- no_error (if ?b then _ else _) => destruct b
  | |- no_error _ => solve [eauto with no_error]
  end.

Lemma no_error_findTypeSpec_loop specs pos : no_error (findTypeSpec_loop specs pos).
Proof. induction specs; simpl; repeat no_error_step. Qed.

Lemma no_error_findVarSpec_loop specs pos : no_error (findVarSpec_loop specs pos).
Proof. induction specs; simpl; repeat no_error_step. Qed.

#[local] Hint Resolve no_error_findTypeSpec_loop no_error_findVarSpec_loop : no_error.

Lemma no_error_formatNode_copy n obj : no_error (formatNode_copy n obj).
Proof.
  unfold formatNode_copy, findTypeSpec, findVarSpec, update_FuncDecl,
    update_GenDecl, update_TypeSpec, update_ValueSpec.
  repeat no_error_step.
Qed.

Lemma no_error_formatNode n obj prog : no_error (formatNode n obj prog).
Proof.
  unfold formatNode. apply no_error_bind; [apply no_error_formatNode_copy | ].
  intros [nc|]; [ | apply no_error_ret].
  intros h msg. unfold formatNode_print. now destruct (prog_Fprint prog h nc).
Qed.

(** ** The builtin search *)

Lemma candidates_eq pkg :
  candidates pkg
  = {| consts := p_Consts pkg ++ concat (t_Consts <$> p_Types pkg);
       vars := p_Vars pkg ++ concat (t_Vars <$> p_Types pkg);
       funcs := p_Funcs pkg ++ concat (t_Funcs <$> p_Types pkg) |}.
Proof.
  unfold candidates.
  generalize (p_Consts pkg), (p_Vars pkg), (p_Funcs pkg).
  induction (p_Types pkg) as [|t ts IH]; intros cs vs fs; simpl.
  - now rewrite !app_nil_r.
  - rewrite IH. simpl. now rewrite <- !app_assoc.
Qed.

Lemma hasName_spec name names : hasName name names = true <-> name ∈ names.
Proof.
  unfold hasName. rewrite existsb_exists. split.
  - intros (x & Hx & E). apply String.eqb_eq in E. subst.
    now apply list_elem_of_In.
  - intros Hin. exists name. split; [now apply list_elem_of_In | ].
    apply String.eqb_refl.
Qed.

Lemma findInBuiltin_funcs_find name obj prog l h :
  findInBuiltin_funcs name obj prog l h
  = match list_find (fun f => f_Name f = name) l with
    | Some (_, f) =>
        (let* decl := formatNode (f_Decl f) obj prog in
         ret (Some (f_Doc f, decl))) h
    | None => (Ok None, h)
    end.
Proof.
  induction l as [|f rest IH]; [done | ]. simpl.
  destruct (String.eqb_spec (f_Name f) name) as [E|E].
  - now rewrite decide_True.
  - rewrite decide_False by done. rewrite IH.
    now destruct (list_find _ rest) as [[? ?]|].
Qed.

Lemma findInBuiltin_types_find name obj prog l h :
  findInBuiltin_types name obj prog l h
  = match list_find (fun t => t_Name t = name) l with
    | Some (_, t) =>
        (let* decl := formatNode (t_Decl t) obj prog in
         ret (Some (t_Doc t, decl))) h
    | None => (Ok None, h)
    end.
Proof.
  induction l as [|t rest IH]; [done | ]. simpl.
  destruct (String.eqb_spec (t_Name t) name) as [E|E].
  - now rewrite decide_True.
  - rewrite decide_False by done. rewrite IH.
    now destruct (list_find _ rest) as [[? ?]|].
Qed.

Lemma findInBuiltin_values_find name l :
  findInBuiltin_values name l
  = match list_find (fun v => name ∈ v_Names v) l with
    | Some (_, v) => Some (v_Doc v, "")
    | None => None
    end.
Proof.
  induction l as [|v rest IH]; [done | ]. simpl.
  destruct (hasName name (v_Names v)) eqn:E.
  - apply hasName_spec in E. now rewrite decide_True.
  - rewrite decide_False.
    + rewrite IH. now destruct (list_find _ rest) as [[? ?]|].
    + intros Hin. apply hasName_spec in Hin. congruence.
Qed.

Lemma findInBuiltin_spec pkg name obj prog h :
  findInBuiltin pkg name obj prog h
  = match_result (builtinMatch pkg name) obj prog h.
Proof.
  unfold findInBuiltin, builtinMatch, match_result.
  unfold bind at 1. rewrite findInBuiltin_funcs_find.
  destruct (list_find _ (funcs _)) as [[? f]|].
  { unfold bind, ret. now destruct (formatNode (f_Decl f) obj prog h) as [[?|?|] ?]. }
  rewrite !findInBuiltin_values_find.
  destruct (list_find _ (consts _)) as [[? v]|]; [done | ].
  destruct (list_find _ (vars _)) as [[? v]|]; [done | ].
  unfold bind at 1. rewrite findInBuiltin_types_find.
  destruct (list_find _ (p_Types _)) as [[? t]|]; [ | done].
  unfold bind, ret. now destruct (formatNode (t_Decl t) obj prog h) as [[?|?|] ?].
Qed.

Lemma list_find_elem {X} (P : X -> Prop) `{forall x, Decision (P x)} l i x :
  list_find P l = Some (i, x) -> x ∈ l /\ P x.
Proof.
  intros (Hi & HP & _)%list_find_Some. split; [ | done].
  apply list_elem_of_lookup. eauto.
Qed.

Lemma list_find_none {X} (P : X -> Prop) `{forall x, Decision (P x)} l :
  list_find P l = None <-> ~ exists x, x ∈ l /\ P x.
Proof.
  rewrite list_find_None, Forall_forall. split.
  - intros Hall (x & Hx & HP). now apply (Hall x).
  - intros Hno x Hx HP. apply Hno. eauto.
Qed.

(** The search has no match exactly when no list holds the name. *)
Lemma builtinMatch_NoMatch pkg name :
  builtinMatch pkg name = NoMatch <-> ~ in_catalogue pkg name.
Proof.
  unfold builtinMatch, in_catalogue. cbv zeta.
  destruct (list_find _ (funcs _)) as [[? f]|] eqn:Ef.
  { apply list_find_elem in Ef. split; [done | ]. intros Hno. destruct Hno. eauto. }
  destruct (list_find _ (consts _)) as [[? v]|] eqn:Ec.
  { apply list_find_elem in Ec. split; [done | ]. intros Hno. destruct Hno. eauto. }
  destruct (list_find _ (vars _)) as [[? v]|] eqn:Ev.
  { apply list_find_elem in Ev. split; [done | ]. intros Hno. destruct Hno. eauto 6. }
  destruct (list_find _ (p_Types _)) as [[? t]|] eqn:Et.
  { apply list_find_elem in Et. split; [done | ]. intros Hno. destruct Hno. eauto 6. }
  apply list_find_none in Ef, Ec, Ev, Et. split; [ | done].
  intros _ [?|[?|[?|?]]]; done.
Qed.

(** In a documented catalogue only the absence of a match gives an empty
    documentation string. *)
Lemma match_doc_documented pkg name :
  documented pkg ->
  match_doc (builtinMatch pkg name) = "" <-> ~ in_catalogue pkg name.
Proof.
  intros (Hf & Hc & Hv & Ht). rewrite <- builtinMatch_NoMatch.
  unfold builtinMatch. cbv zeta.
  destruct (list_find _ (funcs _)) as [[? f]|] eqn:Ef.
  { apply list_find_elem in Ef as [Hin _]. simpl. split; [ | done].
    intros E. now destruct (Hf f Hin). }
  destruct (list_find _ (consts _)) as [[? v]|] eqn:Ec.
  { apply list_find_elem in Ec as [Hin _]. simpl. split; [ | done].
    intros E. now destruct (Hc v Hin). }
  destruct (list_find _ (vars _)) as [[? v]|] eqn:Ev.
  { apply list_find_elem in Ev as [Hin _]. simpl. split; [ | done].
    intros E. now destruct (Hv v Hin). }
  destruct (list_find _ (p_Types _)) as [[? t]|] eqn:Et.
  { apply list_find_elem in Et as [Hin _]. simpl. split; [ | done].
    intros E. now destruct (Ht t Hin). }
  done.
Qed.


(** ** The two loops of IdentDoc *)

Lemma IdentDoc_locate_idents pkgPath pkgName pos obj prog h idents rest :
  idents_at h idents ->
  IdentDoc_locate pkgPath pkgName pos obj prog (idents ++ rest) h
  = IdentDoc_locate pkgPath pkgName pos obj prog rest h.
Proof.
  induction 1 as [|a idents [i Ha] _ IH]; [done | ].
  simpl. now rewrite (bind_Ok _ _ _ _ _ (load_Some _ _ _ Ha)).
Qed.

(** The first node that is not an identifier is the one rendered, whatever
    its type. *)
Lemma IdentDoc_locate_first pkgPath pkgName pos obj prog h node n rest :
  h !! node = Some n -> is_ident n = false ->
  IdentDoc_locate pkgPath pkgName pos obj prog (node :: rest) h
  = (let* decl := formatNode node obj prog in
     ret (Some {| d_Import := pkgPath; d_Pkg := pkgName; d_Name := obj_Name obj;
                  d_Decl := decl; d_Doc := ""; d_Pos := pos |})) h.
Proof.
  intros Hn Hk. simpl. rewrite (bind_Ok _ _ _ _ _ (load_Some _ _ _ Hn)).
  now destruct n.
Qed.

(** A record built by the first loop holds a rendering by [formatNode]. *)
Lemma IdentDoc_locate_inv pkgPath pkgName pos obj prog nodes h doc h' :
  IdentDoc_locate pkgPath pkgName pos obj prog nodes h = (Ok (Some doc), h') ->
  exists node,
    node ∈ nodes /\ formatNode node obj prog h = (Ok (d_Decl doc), h')
    /\ d_Doc doc = "".
Proof.
  induction nodes as [|node rest IH]; [done | ]. simpl. intros E.
  apply bind_inv_Ok in E as (n & h1 & El & E).
  pose proof (load_inv _ _ _ _ El) as ->.
  assert (Hb : is_ident n = true
               \/ (let* decl := formatNode node obj prog in
                   ret (Some {| d_Import := pkgPath; d_Pkg := pkgName;
                                d_Name := obj_Name obj; d_Decl := decl;
                                d_Doc := ""; d_Pos := pos |})) h
                  = (Ok (Some doc), h')).
  { destruct n; auto. }
  clear El. destruct Hb as [Hi|Hb].
  - destruct n; try discriminate. destruct (IH E) as (x & Hx & ?).
    exists x. split; [now right | done].
  - apply bind_inv_Ok in Hb as (decl & h2 & Ef & Hr).
    injection Hr as <- <-. exists node. split; [now left | done].
Qed.

Lemma IdentDoc_extract_idents obj doc h idents rest :
  idents_at h idents ->
  IdentDoc_extract obj doc (idents ++ rest) h = IdentDoc_extract obj doc rest h.
Proof.
  induction 1 as [|a idents [i Ha] _ IH]; [done | ].
  simpl. now rewrite (bind_Ok _ _ _ _ _ (load_Some _ _ _ Ha)).
Qed.

(** The second loop writes the documentation field only, and leaves the
    store alone. *)
Lemma IdentDoc_extract_inv obj doc nodes h r h' :
  IdentDoc_extract obj doc nodes h = (r, h') ->
  h' = h /\ forall d, r = Ok d -> exists s, d = d_set_Doc s doc.
Proof.
  destruct doc as [dn di dp dd ds dpos].
  intros E. revert h E.
  assert (Hret : forall d0 h, (exists s, d0 = d_set_Doc s (Build_Doc dn di dp dd ds dpos)) ->
            ret d0 h = (r, h') ->
            h' = h /\ forall d, r = Ok d ->
              exists s, d = d_set_Doc s (Build_Doc dn di dp dd ds dpos)).
  { intros d0 h Hd [= <- <-]. split; [done | ]. now intros d [= <-]. } induction nodes as [|node rest IH]; intros h; simpl.
  - apply Hret. now eexists.
  - destruct (h !! node) as [n|] eqn:Hn.
    2: { rewrite (bind_Panic _ _ _ _ (load_None _ _ Hn)). intros [= <- <-]. done. }
    rewrite (bind_Ok _ _ _ _ _ (load_Some _ _ _ Hn)).
    repeat case_match; first [apply IH | apply Hret; now eexists].
Qed.

(** * The claims *)

(** ** Rendering one spec of a group *)

Lemma pointed_only_at {S} (P : S -> Prop) `{forall x, Decision (P x)}
    (Q : addr -> S -> Prop) specs l i s :
  Forall2 Q specs l -> only_at P l i s ->
  exists a, pointed specs (list_find P l) = Some (a, s).
Proof.
  intros Hl Ho. rewrite (list_find_only_at P l i s Ho). simpl.
  destruct Ho as (Hi & _).
  destruct (Forall2_lookup_r _ _ _ _ _ Hl Hi) as (a & -> & _). now exists a.
Qed.

(** C6.  A grouped declaration of type specs exactly one of which has its
    name at the position of the symbol, or of value specs exactly one of
    which has some name at that position: the node [formatNode] prints is a
    fresh declaration whose spec list is that one spec alone (a copy
    without its documentation), with both parentheses cleared; the text
    returned is what the printer makes of it. *)
Theorem formatNode_group_keeps_one_spec prog h n d obj :
  h !! n = Some (NGenDecl d) ->
  (forall l i ts,
     typeSpecs_at h (gd_Specs d) l ->
     only_at (fun ts => TypeSpec_Pos ts = obj_Pos obj) l i ts ->
     let h' := h ++ [NGenDecl (GenDecl_copy d [length h + 1]);
                     NTypeSpec (ts_set_Doc None ts)] in
     formatNode n obj prog h
     = (Ok (default (obj_String obj) (prog_Fprint prog h' (length h))), h'))
  /\
  (forall l i vs,
     valueSpecs_at h (gd_Specs d) l ->
     only_at (fun vs => exists ident,
                          ident ∈ vs_Names vs /\ id_NamePos ident = obj_Pos obj)
       l i vs ->
     let h' := h ++ [NGenDecl (GenDecl_copy d [length h + 1]);
                     NValueSpec (vs_set_Doc None vs)] in
     formatNode n obj prog h
     = (Ok (default (obj_String obj) (prog_Fprint prog h' (length h))), h')).
Proof.
  intros Hn. split.
  - intros l i ts Hl Ho h'. apply formatNode_of_copy.
    rewrite (formatNode_copy_GenDecl_types h n d l obj Hn Hl).
    + destruct (pointed_only_at _ _ _ _ _ _ Hl Ho) as [a ->]. reflexivity.
    + destruct Ho as (Hi & _). intros ->. done.
  - intros l i vs Hl Ho h'. apply formatNode_of_copy.
    assert (Ho' : only_at (fun vs => hasNameAt (obj_Pos obj) (vs_Names vs) = true)
                    l i vs).
    { destruct Ho as (Hi & HP & Huniq). split; [done | ]. split.
      - now apply hasNameAt_spec.
      - intros j s' Hj HP'. apply (Huniq j s' Hj). now apply hasNameAt_spec. }
    rewrite (formatNode_copy_GenDecl_values h n d l obj Hn Hl).
    + destruct (pointed_only_at _ _ _ _ _ _ Hl Ho') as [a ->]. reflexivity.
    + destruct Ho as (Hi & _). intros ->. done.
Qed.

(** ** formatNode and the shared tree *)

(** C9.  Every node of the store before a call of [formatNode] is the same
    node after it: the node passed in, its specs, and all the others.  The
    writes of [formatNode] go to the copies it allocates. *)
Theorem formatNode_leaves_tree_unchanged prog h n obj :
  let h' := (formatNode n obj prog h).2 in
  h' !! n = h !! n
  /\ forall a node, h !! a = Some node -> h' !! a = Some node.
Proof.
  intros h'. assert (Hlt : forall a, a < length h -> h' !! a = h !! a).
  { intros a Ha. apply (framed_lookup _ _ _ _ (framed_formatNode h n obj prog) Ha). }
  split.
  - destruct (h !! n) as [node|] eqn:Hn.
    + rewrite <- Hn. apply Hlt. now apply lookup_lt_Some in Hn.
    + subst h'. unfold formatNode, formatNode_copy.
      now rewrite (bind_Panic _ _ _ _ (bind_Panic _ _ _ _ (load_None _ _ Hn))).
  - intros a node Ha. rewrite <- Ha. apply Hlt. now apply lookup_lt_Some in Ha.
Qed.

(** ** formatNode never fails *)

(** C8.  [formatNode] returns no error; on a well-formed node it returns a
    string; on a node it has no case for, and on a copy the printer fails
    on, that string is [obj.String()]. *)
Theorem formatNode_total_with_fallback prog h n obj :
  (forall msg, (formatNode n obj prog h).1 <> Error msg)
  /\ (well_formed h n -> exists s, (formatNode n obj prog h).1 = Ok s)
  /\ (forall node, h !! n = Some node -> supported node = false ->
        formatNode n obj prog h = (Ok (obj_String obj), h))
  /\ (forall nc h', formatNode_copy n obj h = (Ok (Some nc), h') ->
        prog_Fprint prog h' nc = None ->
        formatNode n obj prog h = (Ok (obj_String obj), h')).
Proof.
  repeat split.
  - apply no_error_formatNode.
  - intros Hwf. destruct (formatNode_total h n obj prog Hwf) as (s & h' & ->).
    now exists s.
  - intros node. apply formatNode_unsupported.
  - intros nc h' E Hp. rewrite (formatNode_of_copy _ _ _ prog _ _ E).
    now rewrite Hp.
Qed.

(** ** Doc.String *)

(** C10.  [String] on a record whose documentation is empty leaves
    "Undocumented." in the documentation field of the receiver, which is
    thereby not the record it was. *)
Theorem Doc_String_mutates_receiver ToText d :
  d_Doc d = "" ->
  (Doc_String ToText d).2 = d_set_Doc "Undocumented." d
  /\ d_Doc (Doc_String ToText d).2 = "Undocumented."
  /\ (Doc_String ToText d).2 <> d.
Proof.
  intros E. unfold Doc_String. rewrite E. simpl. repeat split.
  intros Heq. apply (f_equal d_Doc) in Heq. simpl in Heq. congruence.
Qed.

(** ** The builtin search order *)

(** C5.  [findInBuiltin] answers from the first function of the name, if
    there is one, whatever the other lists hold; failing that from the
    first constant group binding the name, then from the first such
    variable group, then from the first type of the name. *)
Theorem findInBuiltin_search_order pkg name obj prog h :
  let fs := p_Funcs pkg ++ concat (t_Funcs <$> p_Types pkg) in
  let cs := p_Consts pkg ++ concat (t_Consts <$> p_Types pkg) in
  let vs := p_Vars pkg ++ concat (t_Vars <$> p_Types pkg) in
  let byName := fun f => f_Name f = name in
  let binds := fun v => name ∈ v_Names v in
  let named := fun t => t_Name t = name in
  (forall i f, list_find byName fs = Some (i, f) ->
     findInBuiltin pkg name obj prog h
     = (let* decl := formatNode (f_Decl f) obj prog in ret (f_Doc f, decl)) h)
  /\ (list_find byName fs = None ->
      forall i v, list_find binds cs = Some (i, v) ->
      findInBuiltin pkg name obj prog h = (Ok (v_Doc v, ""), h))
  /\ (list_find byName fs = None -> list_find binds cs = None ->
      forall i v, list_find binds vs = Some (i, v) ->
      findInBuiltin pkg name obj prog h = (Ok (v_Doc v, ""), h))
  /\ (list_find byName fs = None -> list_find binds cs = None ->
      list_find binds vs = None ->
      forall i t, list_find named (p_Types pkg) = Some (i, t) ->
      findInBuiltin pkg name obj prog h
      = (let* decl := formatNode (t_Decl t) obj prog in ret (t_Doc t, decl)) h)
  /\ (list_find byName fs = None -> list_find binds cs = None ->
      list_find binds vs = None -> list_find named (p_Types pkg) = None ->
      findInBuiltin pkg name obj prog h = (Ok ("", ""), h)).
Proof.
  intros fs cs vs byName binds named.
  rewrite findInBuiltin_spec. unfold builtinMatch. rewrite candidates_eq. simpl.
  fold fs cs vs byName binds named.
  repeat split.
  - intros i f ->. reflexivity.
  - intros -> i v ->. reflexivity.
  - intros -> -> i v ->. reflexivity.
  - intros -> -> -> i t ->. reflexivity.
  - intros -> -> -> ->. reflexivity.
Qed.

(** ** IdentDoc *)

Lemma formatNode_result h n obj prog s h' :
  formatNode n obj prog h = (Ok s, h') ->
  s = obj_String obj \/ exists h1 nc, prog_Fprint prog h1 nc = Some s.
Proof.
  unfold formatNode. intros E.
  apply bind_inv_Ok in E as ([nc|] & h1 & Ec & E).
  - unfold formatNode_print in E.
    destruct (prog_Fprint prog h1 nc) as [s'|] eqn:Ep; injection E as <- <-; eauto.
  - injection E as <- <-. now left.
Qed.

Lemma string_length_app s1 s2 :
  String.length (s1 +:+ s2) = String.length s1 + String.length s2.
Proof. induction s1 as [|c s1 IH]; simpl; [done | now rewrite IH]. Qed.

Lemma match_result_cases m obj prog h :
  (exists h', match_result m obj prog h = (Panic, h'))
  \/ (exists decl h',
        match_result m obj prog h = (Ok (match_doc m, decl), h')
        /\ match_decl m obj prog h decl).
Proof.
  assert (Hf : forall n (doc : string),
            (exists h', (let* decl := formatNode n obj prog in ret (doc, decl)) h
                        = (Panic, h'))
            \/ (exists decl h',
                  (let* decl := formatNode n obj prog in ret (doc, decl)) h
                  = (Ok (doc, decl), h')
                  /\ exists h', formatNode n obj prog h = (Ok decl, h'))).
  { intros n doc.
    destruct (formatNode n obj prog h) as [[decl|e|] h1] eqn:Ef.
    - right. exists decl, h1. rewrite (bind_Ok _ _ _ _ _ Ef). eauto.
    - exfalso. apply (no_error_formatNode n obj prog h e). now rewrite Ef.
    - left. exists h1. now rewrite (bind_Panic _ _ _ _ Ef). }
  destruct m as [f|v|v|t|]; simpl; try apply Hf; right; eauto.
Qed.

Section IdentDocFacts.

Variable builtinPackage : DocPackage.
Variable AstPackage : Type.
Variable ParseDir : string -> (string -> bool) -> outcome (gmap string AstPackage).
Variable docNew : AstPackage -> string -> DocPackage.

Local Abbreviation run_IdentDoc := (IdentDoc builtinPackage AstPackage ParseDir docNew).
Local Abbreviation run_PackageDoc := (PackageDoc AstPackage ParseDir docNew).

Lemma PackageDoc_inv ctx srcDir importPath d :
  run_PackageDoc ctx srcDir importPath = Ok d ->
  d_Import d = importPath /\ exists name, d_Decl d = "package " +:+ name.
Proof.
  unfold PackageDoc.
  destruct (ctxt_Import ctx importPath srcDir) as [bp|?|]; try done.
  destruct (ParseDir _ _) as [pkgs|?|]; try done.
  destruct (pkgs !! bp_Name bp); try done.
  intros [= <-]. simpl. eauto.
Qed.

Lemma IdentDoc_builtin_eq ctx id pkg prog h obj :
  IdentDoc_object id pkg = Some obj ->
  obj_Pkg obj = None ->
  (forall p, obj_Kind obj <> KPkgName p) ->
  run_IdentDoc ctx id pkg prog h
  = bind (match_result (builtinMatch builtinPackage (obj_Name obj)) obj prog)
         (builtin_record obj
            (if IsValid (obj_Pos obj) then prog_Position prog (obj_Pos obj) else ""))
         h.
Proof.
  intros Hobj Hpkg Hkind. unfold IdentDoc. rewrite Hobj, Hpkg.
  assert (E : forall k : string * string -> M Doc,
             bind (findInBuiltin builtinPackage (obj_Name obj) obj prog) k h
             = bind (match_result (builtinMatch builtinPackage (obj_Name obj)) obj prog) k h).
  { intros k. unfold bind. now rewrite findInBuiltin_spec. }
  destruct (obj_Kind obj) eqn:Hk; try (now destruct (Hkind imported));
    rewrite E; reflexivity.
Qed.

(** The builtin branch of [IdentDoc]: a panic of the renderer, the
    not-found error when the documentation string of the match is empty,
    and a record otherwise. *)
Lemma IdentDoc_builtin ctx id pkg prog h obj :
  IdentDoc_object id pkg = Some obj ->
  obj_Pkg obj = None ->
  (forall p, obj_Kind obj <> KPkgName p) ->
  let m := builtinMatch builtinPackage (obj_Name obj) in
  let r := (run_IdentDoc ctx id pkg prog h).1 in
  r = Panic
  \/ (match_doc m = "" /\ r = Error (not_found obj))
  \/ (match_doc m <> "" /\
      exists d, r = Ok d /\ d_Doc d = match_doc m
                /\ match_decl m obj prog h (d_Decl d)).
Proof.
  intros Hobj Hpkg Hkind m r. subst r.
  rewrite (IdentDoc_builtin_eq _ _ _ _ _ _ Hobj Hpkg Hkind). fold m.
  destruct (match_result_cases m obj prog h) as [[h' E]|(decl & h' & E & Hd)].
  - left. now rewrite (bind_Panic _ _ _ _ E).
  - right. rewrite (bind_Ok _ _ _ _ _ E). unfold builtin_record.
    destruct (String.eqb_spec (match_doc m) "") as [E0|E0]; simpl.
    + left. done.
    + right. split; [done | ]. eexists. repeat split. exact Hd.
Qed.

(** The branch of [IdentDoc] for a symbol of a package of the program. *)
Lemma IdentDoc_declared_eq ctx id pkg prog h obj p :
  IdentDoc_object id pkg = Some obj ->
  obj_Pkg obj = Some p ->
  (forall q, obj_Kind obj <> KPkgName q) ->
  run_IdentDoc ctx id pkg prog h
  = match prog_Path prog p (obj_Pos obj) with
    | None => (Panic, h)
    | Some nodes =>
        (let* doc := IdentDoc_locate (tp_Path p) (tp_Name p)
                       (if IsValid (obj_Pos obj)
                        then prog_Position prog (obj_Pos obj) else "")
                       obj prog nodes in
         match doc with
         | None => fail (not_found obj)
         | Some doc => IdentDoc_extract obj doc nodes
         end) h
    end.
Proof.
  intros Hobj Hpkg Hkind. unfold IdentDoc. rewrite Hobj, Hpkg.
  destruct (obj_Kind obj) eqn:Hk; try (now destruct (Hkind imported));
    now destruct (prog_Path prog p (obj_Pos obj)).
Qed.

(** The branch of [IdentDoc] for a package name. *)
Lemma IdentDoc_package_eq ctx id pkg prog h obj imported :
  IdentDoc_object id pkg = Some obj ->
  obj_Kind obj = KPkgName imported ->
  run_IdentDoc ctx id pkg prog h = (run_PackageDoc ctx "" (tp_Path imported), h).
Proof. intros Hobj Hk. unfold IdentDoc. now rewrite Hobj, Hk. Qed.

(** C7.  When the object of the identifier is a package name, [IdentDoc] is
    [PackageDoc] on the path of the imported package, whatever the local
    name: the store is left as it was, and neither the program (its paths,
    its printer) nor the builtin catalogue has a part in the result.  A
    record so returned carries that import path. *)
Theorem IdentDoc_package_name ctx id pkg prog h obj imported :
  IdentDoc_object id pkg = Some obj ->
  obj_Kind obj = KPkgName imported ->
  run_IdentDoc ctx id pkg prog h = (run_PackageDoc ctx "" (tp_Path imported), h)
  /\ forall d, (run_IdentDoc ctx id pkg prog h).1 = Ok d ->
       d_Import d = tp_Path imported.
Proof.
  intros Hobj Hk.
  pose proof (IdentDoc_package_eq ctx id pkg prog h obj imported Hobj Hk) as E.
  split; [exact E | ]. rewrite E. simpl. intros d Hd.
  now apply PackageDoc_inv in Hd as [? _].
Qed.

(** For a catalogue taken as it comes: short of a panic of the renderer,
    the error is returned exactly when the documentation string of the
    first match is empty, as it is when there is no match. *)
Lemma IdentDoc_builtin_by_doc ctx id pkg prog h obj :
  IdentDoc_object id pkg = Some obj ->
  obj_Pkg obj = None ->
  (forall p, obj_Kind obj <> KPkgName p) ->
  (run_IdentDoc ctx id pkg prog h).1 <> Panic ->
  let m := builtinMatch builtinPackage (obj_Name obj) in
  ((run_IdentDoc ctx id pkg prog h).1 = Error (not_found obj) <-> match_doc m = "")
  /\ ((exists d, (run_IdentDoc ctx id pkg prog h).1 = Ok d) <-> match_doc m <> "").
Proof.
  intros Hobj Hpkg Hkind Hnp m.
  destruct (IdentDoc_builtin ctx id pkg prog h obj Hobj Hpkg Hkind)
    as [E|[[Hd E]|(Hd & d & E & _)]]; [done | | ]; fold m in Hd; rewrite E.
  - split; split; try done. intros [d [=]].
  - split; split; try done. eauto.
Qed.

(** X24.  With a catalogue whose entries are all documented, as builtin.go
    is, and short of a panic of the renderer, [IdentDoc] returns the
    not-found error for a symbol without a package exactly when no list of
    the search holds its name, and a record whenever one does. *)
Corollary IdentDoc_builtin_documented ctx id pkg prog h obj :
  IdentDoc_object id pkg = Some obj ->
  obj_Pkg obj = None ->
  (forall p, obj_Kind obj <> KPkgName p) ->
  (run_IdentDoc ctx id pkg prog h).1 <> Panic ->
  documented builtinPackage ->
  ((run_IdentDoc ctx id pkg prog h).1 = Error (not_found obj)
   <-> ~ in_catalogue builtinPackage (obj_Name obj))
  /\ (in_catalogue builtinPackage (obj_Name obj) ->
      exists d, (run_IdentDoc ctx id pkg prog h).1 = Ok d).
Proof.
  intros Hobj Hpkg Hkind Hnp Hdoc.
  pose proof (match_doc_documented builtinPackage (obj_Name obj) Hdoc) as Hm.
  destruct (IdentDoc_builtin ctx id pkg prog h obj Hobj Hpkg Hkind)
    as [E|[[Hd E]|(Hd & d & E & _)]]; [done | | ]; rewrite E.
  - apply Hm in Hd. split; [done | ]. intros Hin. now destruct Hd.
  - split; [ | eauto]. split; [done | ]. intros Hno. apply Hm in Hno. done.
Qed.


(** C3, amended.  In a record returned by [IdentDoc] the declaration is
    empty exactly when the symbol has no package and the builtin search
    answered from a constant or a variable group; in every other case it is
    the text of the printer or [obj.String()], taken here to be non-empty,
    or the package clause. *)
Theorem IdentDoc_decl_empty_iff ctx id pkg prog h obj d h' :
  IdentDoc_object id pkg = Some obj ->
  obj_String obj <> "" ->
  (forall h a s, prog_Fprint prog h a = Some s -> s <> "") ->
  run_IdentDoc ctx id pkg prog h = (Ok d, h') ->
  d_Decl d = ""
  <-> obj_Pkg obj = None
      /\ (forall p, obj_Kind obj <> KPkgName p)
      /\ exists v, builtinMatch builtinPackage (obj_Name obj) = MatchConst v
                   \/ builtinMatch builtinPackage (obj_Name obj) = MatchVar v.
Proof.
  intros Hobj Hstr Hprint E.
  assert (Hfmt : forall n h0 s h1, formatNode n obj prog h0 = (Ok s, h1) -> s <> "").
  { intros n h0 s h1 Ef. destruct (formatNode_result _ _ _ _ _ _ Ef) as [->|(h2 & nc & Ep)];
      [done | eauto]. }
  assert (Hdec : (exists p, obj_Kind obj = KPkgName p)
                 \/ ~ (exists p, obj_Kind obj = KPkgName p)).
  { destruct (obj_Kind obj); first [left; eauto; fail | right; intros [? [=]]]. }
  destruct Hdec as [[imported Hk]|Hk].
  { (* a package name *)
    rewrite (IdentDoc_package_eq ctx id pkg prog h obj imported Hobj Hk) in E. injection E as E _.
    apply PackageDoc_inv in E as [_ [name ->]]. split; [done | ].
    intros (_ & Hn & _). now destruct (Hn imported). }
  assert (Hkind : forall p, obj_Kind obj <> KPkgName p) by (intros p Hp; apply Hk; eauto).
  destruct (obj_Pkg obj) as [p|] eqn:Hpkg.
  - (* declared in a package of the program *)
    rewrite (IdentDoc_declared_eq ctx id pkg prog h obj p Hobj Hpkg Hkind) in E.
    destruct (prog_Path prog p (obj_Pos obj)) as [nodes|]; [ | done].
    apply bind_inv_Ok in E as ([doc|] & h1 & El & Ee); [ | done].
    apply IdentDoc_locate_inv in El as (node & _ & Ef & _).
    apply IdentDoc_extract_inv in Ee as [_ Hd].
    destruct (Hd d eq_refl) as [s ->]. simpl.
    split; [intros Hempty; now apply Hfmt in Ef | intros [[=] _]].
  - (* a builtin *)
    destruct (IdentDoc_builtin ctx id pkg prog h obj Hobj Hpkg Hkind)
      as [E'|[[_ E']|(Hd & d' & E' & _ & Hdecl)]];
      rewrite E in E'; simpl in E'; try done.
    injection E' as <-.
    destruct (builtinMatch builtinPackage (obj_Name obj)) as [f|v|v|t|];
      simpl in Hdecl.
    + destruct Hdecl as [h1 Ef]. apply Hfmt in Ef.
      split; [done | intros (_ & _ & v & [[=]|[=]])].
    + split; [ | done]. intros _. repeat split; eauto.
    + split; [ | done]. intros _. repeat split; eauto.
    + destruct Hdecl as [h1 Ef]. apply Hfmt in Ef.
      split; [done | intros (_ & _ & v & [[=]|[=]])].
    + done.
Qed.

(** C1, amended.  A constant of a package of the program whose value spec
    has neither documentation nor a trailing comment, directly inside its
    grouped declaration: the documentation of the record is that of the
    group (empty if it has none) followed by a line with the constant's
    exact value. *)
Theorem IdentDoc_constant_value ctx id pkg prog h obj exact p idents vs gd rest s g :
  IdentDoc_object id pkg = Some obj ->
  obj_Kind obj = KConst exact ->
  exact <> "" ->
  obj_Pkg obj = Some p ->
  prog_Path prog p (obj_Pos obj) = Some (idents ++ vs :: gd :: rest) ->
  idents_at h idents ->
  h !! vs = Some (NValueSpec s) ->
  vs_Doc s = None ->
  vs_Comment s = None ->
  h !! gd = Some (NGenDecl g) ->
  exists d,
    run_IdentDoc ctx id pkg prog h = (Ok d, h)
    /\ d_Doc d = Text (gd_Doc g) +:+ nl +:+ "Constant Value: " +:+ exact
    /\ ends_in_line (d_Doc d) ("Constant Value: " +:+ exact).
Proof.
  intros Hobj Hk Hexact Hpkg Hpath Hids Hvs Hdoc Hcomment Hgd.
  assert (Hkind : forall q, obj_Kind obj <> KPkgName q) by (intros q; now rewrite Hk).
  rewrite (IdentDoc_declared_eq ctx id pkg prog h obj p Hobj Hpkg Hkind), Hpath.
  erewrite bind_Ok.
  2: { rewrite (IdentDoc_locate_idents _ _ _ _ _ _ _ _ Hids).
       rewrite (IdentDoc_locate_first _ _ _ _ _ _ _ _ _ Hvs eq_refl).
       now rewrite (bind_Ok _ _ _ _ _ (formatNode_unsupported _ _ _ obj prog Hvs eq_refl)). }
  cbv beta iota. rewrite (IdentDoc_extract_idents _ _ _ _ _ Hids). simpl.
  rewrite (bind_Ok _ _ _ _ _ (load_Some _ _ _ Hvs)), Hdoc, Hcomment.
  rewrite (bind_Ok _ _ _ _ _ (load_Some _ _ _ Hgd)), Hk.
  destruct (String.eqb_spec exact "") as [|_]; [done | ]. simpl.
  eexists. split; [reflexivity | ]. simpl.
  assert (Hd : (if bool_decide (is_Some (gd_Doc g)) then Text (gd_Doc g) else "")
               = Text (gd_Doc g)).
  { destruct (gd_Doc g); [now rewrite bool_decide_true | ].
    rewrite bool_decide_false; [done | ]. now intros [? [=]]. }
  assert (Hd' : d_Doc (if bool_decide (is_Some (gd_Doc g))
                       then d_set_Doc (Text (gd_Doc g))
                              {| d_Name := obj_Name obj; d_Import := tp_Path p;
                                 d_Pkg := tp_Name p; d_Decl := obj_String obj;
                                 d_Doc := "";
                                 d_Pos := if IsValid (obj_Pos obj)
                                          then prog_Position prog (obj_Pos obj)
                                          else "" |}
                       else {| d_Name := obj_Name obj; d_Import := tp_Path p;
                               d_Pkg := tp_Name p; d_Decl := obj_String obj;
                               d_Doc := "";
                               d_Pos := if IsValid (obj_Pos obj)
                                        then prog_Position prog (obj_Pos obj)
                                        else "" |})
                = Text (gd_Doc g)).
  { rewrite <- Hd at 2. now destruct (bool_decide _). }
  rewrite Hd'. split; [reflexivity | ]. now exists (Text (gd_Doc g)).
Qed.

End IdentDocFacts.

Lemma string_drop_app pre suf : string_drop (String.length pre) (pre +:+ suf) = suf.
Proof. induction pre as [|c pre IH]; simpl; [now destruct suf | exact IH]. Qed.

Lemma ends_in_line_ends_with doc line :
  ends_in_line doc line -> ends_with doc (nl +:+ line) = true.
Proof.
  intros [pre ->]. unfold ends_with.
  rewrite (string_length_app pre (nl +:+ line)).
  apply andb_true_intro. split.
  - apply Nat.leb_le. lia.
  - replace (String.length pre + String.length (nl +:+ line)
             - String.length (nl +:+ line)) with (String.length pre) by lia.
    rewrite string_drop_app. apply String.eqb_refl.
Qed.

(** ** The claims on the worked program *)

Lemma ex_Fprint_nonempty h a s : ex_Fprint h a = Some s -> s <> "".
Proof.
  unfold ex_Fprint. intros E.
  repeat case_match; try discriminate; injection E as <-; discriminate.
Qed.

Lemma ex_type_specs : typeSpecs_at ex_heap [10; 11] [ex_A_spec; ex_B_spec].
Proof. repeat constructor. Qed.

Lemma ex_only_B :
  only_at (fun ts => TypeSpec_Pos ts = obj_Pos ex_B) [ex_A_spec; ex_B_spec] 1 ex_B_spec.
Proof.
  split; [reflexivity | ]. split; [reflexivity | ].
  intros [|[|j]] s' Hj HP; [ | reflexivity | discriminate].
  injection Hj as <-. discriminate.
Qed.

(** C1: a constant whose spec carries its own documentation, and a builtin
    constant, both get a record whose documentation has no line with the
    value. *)
Lemma IdentDoc_constant_value_counterexample :
  (IdentDoc_object 5 ex_loader = Some ex_Documented
   /\ obj_Kind ex_Documented = KConst "7"
   /\ exists d, (ex_IdentDoc 5).1 = Ok d
                /\ d_Doc d = "The answer." +:+ nl
                /\ ~ ends_in_line (d_Doc d) "Constant Value: 7")
  /\ (IdentDoc_object 15 ex_loader = Some ex_true
      /\ obj_Kind ex_true = KConst "true"
      /\ exists d, (ex_IdentDoc 15).1 = Ok d
                   /\ ~ ends_in_line (d_Doc d) "Constant Value: true").
Proof.
  split; (split; [reflexivity | ]); (split; [reflexivity | ]);
    eexists; (split; [vm_compute; reflexivity | ]).
  - split; [reflexivity | ]. intros H%ends_in_line_ends_with. discriminate.
  - intros H%ends_in_line_ends_with. discriminate.
Qed.

Lemma IdentDoc_constant_value_witness :
  exists d,
    ex_IdentDoc 0 = (Ok d, ex_heap)
    /\ d_Doc d = ("Limits." +:+ nl) +:+ nl +:+ "Constant Value: 42"
    /\ ends_in_line (d_Doc d) "Constant Value: 42".
Proof.
  assert (Hids : idents_at ex_heap [0]).
  { constructor; [ | constructor]. eexists. reflexivity. }
  assert (Hne : "42" <> "") by discriminate.
  exact (IdentDoc_constant_value ex_builtin unit ex_ParseDir ex_docNew ex_ctx 0
           ex_loader ex_prog ex_heap ex_Answer "42" ex_pkg [0] 1 3 [4]
           ex_Answer_spec ex_const_decl
           eq_refl eq_refl Hne eq_refl eq_refl Hids eq_refl eq_refl eq_refl eq_refl).
Defined.

(** C2: the identifier of a local variable.  The path from it goes through
    an assignment statement before it reaches the function declaration; the
    record is built from the assignment statement, for which [formatNode]
    has no case. *)
Theorem IdentDoc_selects_other_node :
  IdentDoc_object 6 ex_loader = Some ex_x
  /\ prog_Path ex_prog ex_pkg (obj_Pos ex_x) = Some [6; 7; 8; 9; 4]
  /\ ex_heap !! 7 = Some (NOther "AssignStmt")
  /\ ex_heap !! 9 = Some (NFuncDecl ex_func)
  /\ IdentDoc_locate "example.com/demo" "demo" "demo.go" ex_x ex_prog
       [6; 7; 8; 9; 4] ex_heap
     = (let* decl := formatNode 7 ex_x ex_prog in
        ret (Some {| d_Import := "example.com/demo"; d_Pkg := "demo";
                     d_Name := "x"; d_Decl := decl; d_Doc := "";
                     d_Pos := "demo.go" |})) ex_heap
  /\ ex_IdentDoc 6
     = (Ok {| d_Name := "x"; d_Import := "example.com/demo"; d_Pkg := "demo";
              d_Decl := "var x int"; d_Doc := ""; d_Pos := "demo.go" |},
        ex_heap)
  /\ (formatNode 9 ex_x ex_prog ex_heap).1 = Ok "func f()".
Proof. repeat split. Qed.

(** C3: the builtin constant [true] resolves to a record without a
    declaration. *)
Lemma IdentDoc_decl_counterexample :
  IdentDoc_object 15 ex_loader = Some ex_true
  /\ exists d, (ex_IdentDoc 15).1 = Ok d /\ d_Decl d = "".
Proof. split; [reflexivity | ]. eexists. split; [vm_compute; reflexivity | reflexivity]. Qed.

Lemma IdentDoc_decl_empty_iff_witness :
  obj_String ex_true <> ""
  /\ (d_Decl {| d_Name := "true"; d_Import := "builtin"; d_Pkg := "builtin";
                d_Decl := ""; d_Pos := "";
                d_Doc := "true and false are the two untyped boolean values." +:+ nl |}
      = ""
      <-> obj_Pkg ex_true = None
          /\ (forall p, obj_Kind ex_true <> KPkgName p)
          /\ exists v, builtinMatch ex_builtin (obj_Name ex_true) = MatchConst v
                       \/ builtinMatch ex_builtin (obj_Name ex_true) = MatchVar v).
Proof.
  assert (Hne : obj_String ex_true <> "") by discriminate.
  split; [exact Hne | ].
  exact (IdentDoc_decl_empty_iff ex_builtin unit ex_ParseDir ex_docNew ex_ctx 15
           ex_loader ex_prog ex_heap ex_true _ ex_heap
           eq_refl Hne ex_Fprint_nonempty eq_refl).
Defined.

Lemma findInBuiltin_search_order_witness :
  list_find (fun f => f_Name f = "len") (p_Funcs ex_clash ++ concat (t_Funcs <$> p_Types ex_clash))
  = Some (0, ex_len)
  /\ is_Some (list_find (fun t => t_Name t = "len") (p_Types ex_clash))
  /\ findInBuiltin ex_clash "len" ex_true ex_prog ex_heap
     = (let* decl := formatNode (f_Decl ex_len) ex_true ex_prog in
        ret (f_Doc ex_len, decl)) ex_heap.
Proof.
  split; [reflexivity | ]. split; [eexists; reflexivity | ].
  exact (proj1 (findInBuiltin_search_order ex_clash "len" ex_true ex_prog ex_heap)
           0 ex_len eq_refl).
Defined.

Lemma ex_value_specs :
  valueSpecs_at ex_heap [1; 2] [ex_Answer_spec; ex_Documented_spec].
Proof. repeat constructor. Qed.

Lemma ex_only_Answer :
  only_at (fun vs => exists ident,
                       ident ∈ vs_Names vs /\ id_NamePos ident = obj_Pos ex_Answer)
    [ex_Answer_spec; ex_Documented_spec] 0 ex_Answer_spec.
Proof.
  split; [reflexivity | ]. split.
  - exists (ex_ident 10 "Answer"). split; [ | reflexivity].
    apply list_elem_of_In. now left.
  - intros [|[|j]] s' Hj (ident & Hin & Hpos); [reflexivity | | discriminate].
    injection Hj as <-. apply list_elem_of_In in Hin.
    destruct Hin as [<-|[]]. discriminate.
Qed.

Lemma formatNode_group_keeps_one_spec_witness :
  (ex_heap !! 12 = Some (NGenDecl ex_type_decl)
   /\ formatNode 12 ex_B ex_prog ex_heap
      = (Ok "type B string",
         ex_heap ++ [NGenDecl (GenDecl_copy ex_type_decl [18]);
                     NTypeSpec (ts_set_Doc None ex_B_spec)]))
  /\ (ex_heap !! 3 = Some (NGenDecl ex_const_decl)
      /\ formatNode 3 ex_Answer ex_prog ex_heap
         = (Ok (obj_String ex_Answer),
            ex_heap ++ [NGenDecl (GenDecl_copy ex_const_decl [18]);
                        NValueSpec (vs_set_Doc None ex_Answer_spec)])).
Proof.
  split; (split; [reflexivity | ]).
  - exact (proj1 (formatNode_group_keeps_one_spec ex_prog ex_heap 12 ex_type_decl
                    ex_B eq_refl)
             [ex_A_spec; ex_B_spec] 1 ex_B_spec ex_type_specs ex_only_B).
  - exact (proj2 (formatNode_group_keeps_one_spec ex_prog ex_heap 3 ex_const_decl
                    ex_Answer eq_refl)
             [ex_Answer_spec; ex_Documented_spec] 0 ex_Answer_spec
             ex_value_specs ex_only_Answer).
Defined.

Lemma IdentDoc_package_name_witness :
  IdentDoc_object 13 ex_loader = Some ex_format
  /\ ex_IdentDoc 13 = (PackageDoc unit ex_ParseDir ex_docNew ex_ctx "" "fmt", ex_heap)
  /\ forall d, (ex_IdentDoc 13).1 = Ok d -> d_Import d = "fmt".
Proof.
  split; [reflexivity | ].
  exact (IdentDoc_package_name ex_builtin unit ex_ParseDir ex_docNew ex_ctx 13
           ex_loader ex_prog ex_heap ex_format {| tp_Path := "fmt"; tp_Name := "fmt" |}
           eq_refl eq_refl).
Defined.

Lemma ex_well_formed : well_formed ex_heap 12.
Proof. right. left. exists [ex_A_spec; ex_B_spec]. exact ex_type_specs. Qed.

Lemma formatNode_total_with_fallback_witness :
  (well_formed ex_heap 12 /\ exists s, (formatNode 12 ex_B ex_prog ex_heap).1 = Ok s)
  /\ (ex_heap !! 7 = Some (NOther "AssignStmt")
      /\ formatNode 7 ex_x ex_prog ex_heap = (Ok (obj_String ex_x), ex_heap)).
Proof.
  split.
  - split; [exact ex_well_formed | ].
    exact (proj1 (proj2 (formatNode_total_with_fallback ex_prog ex_heap 12 ex_B))
             ex_well_formed).
  - split; [reflexivity | ].
    exact (proj1 (proj2 (proj2 (formatNode_total_with_fallback ex_prog ex_heap 7 ex_x)))
             (NOther "AssignStmt") eq_refl eq_refl).
Defined.

Lemma formatNode_leaves_tree_unchanged_witness :
  ex_heap !! 11 = Some (NTypeSpec ex_B_spec)
  /\ (formatNode 12 ex_B ex_prog ex_heap).2 !! 11 = Some (NTypeSpec ex_B_spec)
  /\ (formatNode 12 ex_B ex_prog ex_heap).2 !! 18 = Some (NTypeSpec (ts_set_Doc None ex_B_spec)).
Proof.
  split; [reflexivity | ]. split; [ | reflexivity].
  exact (proj2 (formatNode_leaves_tree_unchanged ex_prog ex_heap 12 ex_B)
           11 (NTypeSpec ex_B_spec) eq_refl).
Defined.

Lemma Doc_String_mutates_receiver_witness :
  let d := {| d_Name := "x"; d_Import := "example.com/demo"; d_Pkg := "demo";
              d_Decl := "var x int"; d_Doc := ""; d_Pos := "demo.go" |} in
  d_Doc d = ""
  /\ (Doc_String ex_ToText d).2 = d_set_Doc "Undocumented." d
  /\ d_Doc (Doc_String ex_ToText d).2 = "Undocumented."
  /\ (Doc_String ex_ToText d).2 <> d.
Proof.
  intros d. split; [reflexivity | ].
  exact (Doc_String_mutates_receiver ex_ToText d eq_refl).
Defined.

(** * Further properties of doc.go *)

(** ** ImportPath *)

Lemma substring_0_app p q : String.substring 0 (String.length p) (p +:+ q) = p.
Proof.
  induction p as [|c p IH]; simpl; [now destruct q | now rewrite IH].
Qed.

Lemma substring_length n m s :
  n + m <= String.length s -> String.length (String.substring n m s) = m.
Proof.
  revert n m. induction s as [|c s IH]; intros n m Hle; simpl in *.
  - assert (n = 0) as -> by lia. assert (m = 0) as -> by lia. reflexivity.
  - destruct n as [|n].
    + destruct m as [|m]; simpl; [reflexivity | ]. rewrite (IH 0 m); [done | lia].
    + apply IH. lia.
Qed.

(** X1.  [ImportPath] on a literal of at least two bytes returns what lies
    between the first and the last byte: a quoted path comes back without
    its quotation marks, whichever marks they are. *)
Theorem ImportPath_trims doc name comment c1 c2 p :
  ImportPath {| is_Doc := doc; is_Name := name;
                is_Path := String c1 (p +:+ String c2 "");
                is_Comment := comment |}
  = Ok p.
Proof.
  unfold ImportPath, slice. simpl is_Path.
  assert (Hlen : String.length (String c1 (p +:+ String c2 "")) = S (S (String.length p))).
  { simpl. rewrite string_length_app. simpl. lia. }
  rewrite Hlen.
  replace (Z.of_nat (S (S (String.length p))) - 1 - 1)%Z
    with (Z.of_nat (String.length p)) by lia.
  rewrite Nat2Z.id.
  destruct (0 <=? 1)%Z eqn:E1; [ | done].
  destruct (1 <=? Z.of_nat (S (S (String.length p))) - 1)%Z eqn:E2;
    [ | apply Z.leb_gt in E2; lia].
  destruct (Z.of_nat (S (S (String.length p))) - 1
            <=? Z.of_nat (S (S (String.length p))))%Z eqn:E3;
    [ | apply Z.leb_gt in E3; lia].
  simpl. f_equal. apply substring_0_app.
Qed.

(** X2.  [ImportPath] panics exactly on a literal shorter than two bytes
    (the slice bounds are then out of range); otherwise the path it returns
    is two bytes shorter than the literal. *)
Theorem ImportPath_bounds spec :
  (ImportPath spec = Panic <-> String.length (is_Path spec) < 2)
  /\ (forall p, ImportPath spec = Ok p ->
        2 <= String.length (is_Path spec)
        /\ String.length p = String.length (is_Path spec) - 2)
  /\ (forall msg, ImportPath spec <> Error msg).
Proof.
  unfold ImportPath, slice.
  set (s := is_Path spec). set (l := String.length s).
  destruct (0 <=? 1)%Z eqn:E1; [ | done].
  destruct (1 <=? Z.of_nat l - 1)%Z eqn:E2; simpl.
  - apply Z.leb_le in E2.
    destruct (Z.of_nat l - 1 <=? Z.of_nat l)%Z eqn:E3;
      [ | apply Z.leb_gt in E3; lia].
    split; [split; [done | lia] | ]. split; [ | done].
    intros p [= <-]. split; [lia | ].
    rewrite substring_length; [lia | ].
    change (Z.to_nat 1) with 1. fold l. lia.
  - apply Z.leb_gt in E2. split; [split; [lia | done] | ]. split; done.
Qed.

Lemma ImportPath_bounds_witness :
  ImportPath ex2_import_spec = Ok "fmt"
  /\ 2 <= String.length (is_Path ex2_import_spec)
  /\ String.length "fmt" = String.length (is_Path ex2_import_spec) - 2.
Proof.
  split; [reflexivity | ].
  exact (proj1 (proj2 (ImportPath_bounds ex2_import_spec)) "fmt" eq_refl).
Defined.

(** ** Doc.String *)

(** X3.  [String] changes no field of the receiver but the documentation,
    leaves a documentation that is not empty as it is, and after one call
    the record is stable: a second call returns the same text and the same
    record. *)
Theorem Doc_String_stable ToText d :
  let d' := (Doc_String ToText d).2 in
  Doc_String ToText d' = ((Doc_String ToText d).1, d')
  /\ d_Doc d' <> ""
  /\ d_Name d' = d_Name d /\ d_Import d' = d_Import d /\ d_Pkg d' = d_Pkg d
  /\ d_Decl d' = d_Decl d /\ d_Pos d' = d_Pos d
  /\ (d_Doc d <> "" -> d' = d).
Proof.
  unfold Doc_String. simpl.
  destruct (String.eqb_spec (d_Doc d) "") as [E|E]; simpl.
  - repeat split; try done.
  - destruct (String.eqb_spec (d_Doc d) "") as [E'|_]; [done | ].
    repeat split; try done.
Qed.

Lemma Doc_String_stable_witness :
  let d := {| d_Name := "f"; d_Import := ""; d_Pkg := "lib";
              d_Decl := "func f()"; d_Doc := "f does."; d_Pos := "" |} in
  d_Doc d <> "" /\ (Doc_String ex_ToText d).2 = d.
Proof.
  intros d. assert (Hne : d_Doc d <> "") by discriminate.
  split; [exact Hne | ].
  exact (proj2 (proj2 (proj2 (proj2 (proj2 (proj2 (proj2
           (Doc_String_stable ex_ToText d))))))) Hne).
Defined.

(** ** findTypeSpec and findVarSpec *)

Lemma pointed_find {S} (P : S -> Prop) `{forall x, Decision (P x)}
    (inj : S -> Node) (h : Heap) (specs : list addr) (l : list S) :
  (forall x y, inj x = inj y -> x = y) ->
  Forall2 (fun a s => h !! a = Some (inj s)) specs l ->
  match pointed specs (list_find P l) with
  | Some (a, s) =>
      exists i, specs !! i = Some a /\ h !! a = Some (inj s) /\ P s
        /\ forall j a' s', j < i -> specs !! j = Some a' ->
             h !! a' = Some (inj s') -> ~ P s'
  | None => forall a s, a ∈ specs -> h !! a = Some (inj s) -> ~ P s
  end.
Proof.
  intros Hinj Hl.
  assert (Hback : forall j a' s' y, specs !! j = Some a' -> h !! a' = Some (inj s') ->
            l !! j = Some y -> y = s').
  { intros j a' s' y Hj Ha Hy.
    destruct (Forall2_lookup_l _ _ _ _ _ Hl Hj) as (y' & Hy' & Hp).
    rewrite Hy in Hy'. injection Hy' as <-. rewrite Ha in Hp.
    injection Hp as Hp. symmetry. now apply Hinj. }
  destruct (list_find P l) as [[i s]|] eqn:Ef; simpl.
  - apply list_find_Some in Ef as (Hi & HP & Hbefore).
    destruct (Forall2_lookup_r _ _ _ _ _ Hl Hi) as (a & Ha & Hp).
    rewrite Ha. simpl. exists i. repeat split; try done.
    intros j a' s' Hlt Hj Ha' HP'.
    destruct (Forall2_lookup_l _ _ _ _ _ Hl Hj) as (y & Hy & _).
    rewrite (Hback _ _ _ _ Hj Ha' Hy) in Hy. now apply (Hbefore j s').
  - apply list_find_None in Ef. rewrite Forall_forall in Ef.
    intros a s Hin Ha HP. apply list_elem_of_lookup in Hin as [j Hj].
    destruct (Forall2_lookup_l _ _ _ _ _ Hl Hj) as (y & Hy & _).
    rewrite (Hback _ _ _ _ Hj Ha Hy) in Hy.
    apply (Ef s); [ | done]. apply list_elem_of_lookup. eauto.
Qed.

(** X4.  On a declaration of type specs [findTypeSpec] reads the store
    without changing it, and returns the first spec whose name is at the
    position; it returns nil exactly when no spec of the declaration is
    there. *)
Theorem findTypeSpec_first decl pos h l :
  typeSpecs_at h (gd_Specs decl) l ->
  exists r,
    findTypeSpec decl pos h = (Ok r, h)
    /\ match r with
       | Some (a, ts) =>
           exists i, gd_Specs decl !! i = Some a
             /\ h !! a = Some (NTypeSpec ts)
             /\ TypeSpec_Pos ts = pos
             /\ forall j a' ts', j < i -> gd_Specs decl !! j = Some a' ->
                  h !! a' = Some (NTypeSpec ts') -> TypeSpec_Pos ts' <> pos
       | None =>
           forall a ts, a ∈ gd_Specs decl -> h !! a = Some (NTypeSpec ts) ->
             TypeSpec_Pos ts <> pos
       end.
Proof.
  intros Hl. unfold findTypeSpec. rewrite (findTypeSpec_loop_typed _ _ _ pos Hl).
  eexists. split; [reflexivity | ].
  apply (pointed_find (fun ts => TypeSpec_Pos ts = pos) NTypeSpec); [ | exact Hl].
  now intros x y [= ->].
Qed.

Lemma findTypeSpec_first_witness :
  typeSpecs_at ex_heap (gd_Specs ex_type_decl) [ex_A_spec; ex_B_spec]
  /\ (exists r, findTypeSpec ex_type_decl 80%Z ex_heap = (Ok r, ex_heap))
  /\ findTypeSpec ex_type_decl 80%Z ex_heap = (Ok (Some (11, ex_B_spec)), ex_heap)
  /\ findTypeSpec ex_type_decl 81%Z ex_heap = (Ok None, ex_heap).
Proof.
  split; [exact ex_type_specs | ].
  destruct (findTypeSpec_first ex_type_decl 80%Z ex_heap _ ex_type_specs) as (r & E & _).
  split; [exists r; exact E | split; reflexivity].
Defined.

(** X5.  On a declaration of value specs [findVarSpec] returns the first
    spec one of whose names is at the position, so every name of a spec of
    several names finds that spec; it returns nil exactly when no name of
    any spec is there.  The store is not changed. *)
Theorem findVarSpec_first decl pos h l :
  valueSpecs_at h (gd_Specs decl) l ->
  exists r,
    findVarSpec decl pos h = (Ok r, h)
    /\ match r with
       | Some (a, vs) =>
           exists i, gd_Specs decl !! i = Some a
             /\ h !! a = Some (NValueSpec vs)
             /\ (exists ident, ident ∈ vs_Names vs /\ id_NamePos ident = pos)
             /\ forall j a' vs', j < i -> gd_Specs decl !! j = Some a' ->
                  h !! a' = Some (NValueSpec vs') ->
                  forall ident, ident ∈ vs_Names vs' -> id_NamePos ident <> pos
       | None =>
           forall a vs ident, a ∈ gd_Specs decl -> h !! a = Some (NValueSpec vs) ->
             ident ∈ vs_Names vs -> id_NamePos ident <> pos
       end.
Proof.
  intros Hl. unfold findVarSpec. rewrite (findVarSpec_loop_typed _ _ _ pos Hl).
  eexists. split; [reflexivity | ].
  pose proof (pointed_find (fun vs => hasNameAt pos (vs_Names vs) = true) NValueSpec
                h (gd_Specs decl) l) as Hp.
  destruct (pointed _ _) as [[a vs]|].
  - destruct Hp as (i & Hi & Ha & HP & Hbefore); [now intros x y [= ->] | exact Hl | ].
    exists i. repeat split; try done.
    + now apply hasNameAt_spec.
    + intros j a' vs' Hlt Hj Ha' ident Hin E.
      apply (Hbefore j a' vs' Hlt Hj Ha'). apply hasNameAt_spec. eauto.
  - intros a vs ident Hin Ha Hid E.
    apply (Hp ltac:(now intros x y [= ->]) Hl a vs Hin Ha).
    apply hasNameAt_spec. eauto.
Qed.

Lemma ex2_v_specs : valueSpecs_at ex2_heap (gd_Specs ex2_v_decl) [ex2_v_spec].
Proof. repeat constructor. Qed.

Lemma findVarSpec_first_witness :
  valueSpecs_at ex2_heap (gd_Specs ex2_v_decl) [ex2_v_spec]
  /\ (exists r, findVarSpec ex2_v_decl 53%Z ex2_heap = (Ok r, ex2_heap))
  /\ findVarSpec ex2_v_decl 50%Z ex2_heap = (Ok (Some (13, ex2_v_spec)), ex2_heap)
  /\ findVarSpec ex2_v_decl 53%Z ex2_heap = (Ok (Some (13, ex2_v_spec)), ex2_heap).
Proof.
  split; [exact ex2_v_specs | ].
  destruct (findVarSpec_first ex2_v_decl 53%Z ex2_heap _ ex2_v_specs) as (r & E & _).
  split; [exists r; exact E | split; reflexivity].
Defined.

(** X6.  [findTypeSpec] panics exactly when the declaration holds a spec
    that is not a type spec with no type spec at the position before it:
    the type assertion fails on that spec.  It never returns an error. *)
Theorem findTypeSpec_panics decl pos h :
  ((findTypeSpec decl pos h).1 = Panic
   <-> exists i a, gd_Specs decl !! i = Some a
         /\ (forall ts, h !! a <> Some (NTypeSpec ts))
         /\ forall j a', j < i -> gd_Specs decl !! j = Some a' ->
              exists ts', h !! a' = Some (NTypeSpec ts') /\ TypeSpec_Pos ts' <> pos)
  /\ forall msg, (findTypeSpec decl pos h).1 <> Error msg.
Proof.
  split; [ | apply no_error_findTypeSpec_loop].
  unfold findTypeSpec. induction (gd_Specs decl) as [|a0 rest IH]; simpl.
  - split; [done | ]. intros (i & a & Hi & _). done.
  - destruct (h !! a0) as [n|] eqn:Ha0.
    2: { rewrite (bind_Panic _ _ _ _ (load_None _ _ Ha0)). split; [ | done].
         intros _. exists 0, a0. repeat split; [congruence | ].
         intros j a' Hlt. lia. }
    rewrite (bind_Ok _ _ _ _ _ (load_Some _ _ _ Ha0)).
    assert (Hother : (forall ts, n <> NTypeSpec ts) ->
              (@panic (option (addr * TypeSpec)) h).1 = Panic
              <-> exists i a, (a0 :: rest) !! i = Some a
                    /\ (forall ts, h !! a <> Some (NTypeSpec ts))
                    /\ forall j a', j < i -> (a0 :: rest) !! j = Some a' ->
                         exists ts', h !! a' = Some (NTypeSpec ts')
                                     /\ TypeSpec_Pos ts' <> pos).
    { intros Hn. split; [ | done]. intros _. exists 0, a0.
      repeat split; [intros ts; rewrite Ha0; intros [= E]; now apply (Hn ts) | ].
      intros j a' Hlt. lia. }
    destruct n as [?|?|?|?|?|ts|?|?]; try (apply Hother; intros ts'; discriminate).
    clear Hother. destruct (Z.eqb_spec (TypeSpec_Pos ts) pos) as [E|E].
    + split; [done | ]. intros (i & a & Hi & Hno & Hbefore). destruct i as [|i].
      * injection Hi as <-. now destruct (Hno ts).
      * destruct (Hbefore 0 a0 ltac:(lia) eq_refl) as (ts' & Hts' & Hne).
        rewrite Ha0 in Hts'. injection Hts' as <-. done.
    + rewrite IH. split.
      * intros (i & a & Hi & Hno & Hbefore). exists (S i), a.
        repeat split; [done.. | ]. intros [|j] a' Hlt Hj.
        -- injection Hj as <-. eauto.
        -- apply (Hbefore j a'); [lia | done].
      * intros (i & a & Hi & Hno & Hbefore). destruct i as [|i].
        -- injection Hi as <-. now destruct (Hno ts).
        -- exists i, a. repeat split; [done.. | ]. intros j a' Hlt Hj.
           apply (Hbefore (S j) a'); [lia | done].
Qed.

Lemma findTypeSpec_panics_witness :
  (findTypeSpec ex_const_decl 10%Z ex_heap).1 = Panic.
Proof.
  apply (proj1 (findTypeSpec_panics ex_const_decl 10%Z ex_heap)).
  exists 0, 1. split; [reflexivity | ]. split; [intros ts; discriminate | ].
  intros j a' Hlt. lia.
Defined.

(** ** formatNode, case by case *)

(** X7.  For a function declaration [formatNode] prints a copy that has
    neither the documentation nor the body, and the same name and
    signature; the copy is the one node added to the store, and the text is
    the printer's, or [obj.String()] if the printer fails. *)
Theorem formatNode_FuncDecl prog h n d obj :
  h !! n = Some (NFuncDecl d) ->
  let h' := h ++ [NFuncDecl {| fd_Doc := None; fd_Name := fd_Name d;
                               fd_Type := fd_Type d; fd_Body := None |}] in
  formatNode n obj prog h
  = (Ok (default (obj_String obj) (prog_Fprint prog h' (length h))), h').
Proof.
  intros Hn h'. apply formatNode_of_copy. now apply formatNode_copy_FuncDecl.
Qed.

Lemma formatNode_FuncDecl_witness :
  ex2_heap !! 1 = Some (NFuncDecl ex2_f_decl)
  /\ fd_Body ex2_f_decl = Some "{ return n }"
  /\ formatNode 1 ex2_f ex2_prog ex2_heap
     = (Ok "func f(n int) int",
        ex2_heap ++ [NFuncDecl {| fd_Doc := None; fd_Name := ex_ident 10 "f";
                                  fd_Type := "(n int) int"; fd_Body := None |}]).
Proof.
  split; [reflexivity | ]. split; [reflexivity | ].
  exact (formatNode_FuncDecl ex2_prog ex2_heap 1 ex2_f_decl ex2_f eq_refl).
Defined.

(** X8.  For a type spec [formatNode] prints a fresh declaration with the
    token [type], no parentheses and no documentation, whose one spec is a
    copy of the type spec without its documentation. *)
Theorem formatNode_TypeSpec prog h n s obj :
  h !! n = Some (NTypeSpec s) ->
  let h' := h ++ [NTypeSpec (ts_set_Doc None s);
                  NGenDecl {| gd_Doc := None; gd_TokPos := NoPos; gd_Tok := TYPE;
                              gd_Lparen := NoPos; gd_Specs := [length h];
                              gd_Rparen := NoPos |}] in
  formatNode n obj prog h
  = (Ok (default (obj_String obj) (prog_Fprint prog h' (length h + 1))), h').
Proof.
  intros Hn h'. apply formatNode_of_copy. now apply formatNode_copy_TypeSpec.
Qed.

Lemma formatNode_TypeSpec_witness :
  ex2_heap !! 7 = Some (NTypeSpec ex2_T_spec)
  /\ (formatNode 7 ex2_T ex2_prog ex2_heap).1 = Ok "type T struct { Size int; T }".
Proof.
  split; [reflexivity | ].
  exact (f_equal fst (formatNode_TypeSpec ex2_prog ex2_heap 7 ex2_T_spec ex2_T eq_refl)).
Defined.

(** X9.  A grouped declaration of type specs, or of value specs, none of
    which is at the position of the symbol (a builtin symbol has no
    position): the copy printed keeps the whole spec list of the original,
    the very same spec nodes with their documentation, and only loses its
    own documentation and its parentheses. *)
Theorem formatNode_group_without_match prog h n d obj :
  h !! n = Some (NGenDecl d) ->
  let h' := h ++ [NGenDecl (GenDecl_copy d (gd_Specs d))] in
  (forall l,
     typeSpecs_at h (gd_Specs d) l -> l <> [] ->
     (forall ts, ts ∈ l -> TypeSpec_Pos ts <> obj_Pos obj) ->
     formatNode n obj prog h
     = (Ok (default (obj_String obj) (prog_Fprint prog h' (length h))), h'))
  /\
  (forall l,
     valueSpecs_at h (gd_Specs d) l -> l <> [] ->
     (forall vs ident, vs ∈ l -> ident ∈ vs_Names vs -> id_NamePos ident <> obj_Pos obj) ->
     formatNode n obj prog h
     = (Ok (default (obj_String obj) (prog_Fprint prog h' (length h))), h')).
Proof.
  intros Hn h'. split.
  - intros l Hl Hne Hno. apply formatNode_of_copy.
    rewrite (formatNode_copy_GenDecl_types h n d l obj Hn Hl Hne).
    replace (list_find _ l) with (@None (nat * TypeSpec)); [reflexivity | ].
    symmetry. apply list_find_None, Forall_forall. exact Hno.
  - intros l Hl Hne Hno. apply formatNode_of_copy.
    rewrite (formatNode_copy_GenDecl_values h n d l obj Hn Hl Hne).
    replace (list_find _ l) with (@None (nat * ValueSpec)); [reflexivity | ].
    symmetry. apply list_find_None, Forall_forall.
    intros vs Hin (ident & Hid & E)%hasNameAt_spec. now apply (Hno vs ident).
Qed.

Lemma formatNode_group_without_match_witness :
  ex_heap !! 12 = Some (NGenDecl ex_type_decl)
  /\ formatNode 12 ex_true ex_prog ex_heap
     = (Ok (obj_String ex_true),
        ex_heap ++ [NGenDecl (GenDecl_copy ex_type_decl [10; 11])]).
Proof.
  split; [reflexivity | ].
  refine (proj1 (formatNode_group_without_match ex_prog ex_heap 12 ex_type_decl
                   ex_true eq_refl)
            [ex_A_spec; ex_B_spec] ex_type_specs _ _).
  - discriminate.
  - intros ts Hin. apply list_elem_of_In in Hin.
    destruct Hin as [<-|[<-|[]]]; discriminate.
Defined.

(** X10.  A declaration without specs, and one whose first spec is neither
    a type spec nor a value spec (an import declaration): the copy printed
    loses its documentation and nothing else; the parentheses stay. *)
Theorem formatNode_plain_declaration prog h n d obj :
  h !! n = Some (NGenDecl d) -> plain_specs h d ->
  let h' := h ++ [NGenDecl (gd_set_Doc None d)] in
  formatNode n obj prog h
  = (Ok (default (obj_String obj) (prog_Fprint prog h' (length h))), h').
Proof.
  intros Hn Hp h'. apply formatNode_of_copy.
  now apply formatNode_copy_GenDecl_plain.
Qed.

Lemma formatNode_plain_declaration_witness :
  ex2_heap !! 20 = Some (NGenDecl ex2_import_decl)
  /\ plain_specs ex2_heap ex2_import_decl
  /\ (formatNode 20 ex2_f ex2_prog ex2_heap).2 !! 21
     = Some (NGenDecl {| gd_Doc := None; gd_TokPos := 1%Z; gd_Tok := IMPORT;
                         gd_Lparen := 8%Z; gd_Specs := [19]; gd_Rparen := 14%Z |}).
Proof.
  assert (Hp : plain_specs ex2_heap ex2_import_decl) by exact I.
  split; [reflexivity | ]. split; [exact Hp | ].
  rewrite (formatNode_plain_declaration ex2_prog ex2_heap 20 ex2_import_decl ex2_f
             eq_refl Hp).
  reflexivity.
Defined.

(** ** findInBuiltin *)

(** X11.  The candidate lists of [findInBuiltin]: the constants, the
    variables and the functions of the package come first, in their order,
    and those of each type follow, type after type. *)
Theorem candidates_lists pkg :
  consts (candidates pkg) = p_Consts pkg ++ concat (t_Consts <$> p_Types pkg)
  /\ vars (candidates pkg) = p_Vars pkg ++ concat (t_Vars <$> p_Types pkg)
  /\ funcs (candidates pkg) = p_Funcs pkg ++ concat (t_Funcs <$> p_Types pkg).
Proof.
  unfold candidates.
  generalize (p_Consts pkg), (p_Vars pkg), (p_Funcs pkg).
  induction (p_Types pkg) as [|t ts IH]; intros cs vs fs.
  - simpl. now rewrite !app_nil_r.
  - simpl foldl. destruct (IH (cs ++ t_Consts t) (vs ++ t_Vars t) (fs ++ t_Funcs t))
      as (Hc & Hv & Hf).
    rewrite Hc, Hv, Hf. simpl. now rewrite <- !app_assoc.
Qed.

Lemma framed_ext {A} h0 (m m' : M A) Q :
  (forall h, m h = m' h) -> framed h0 m' Q -> framed h0 m Q.
Proof. intros E Hm l. rewrite E. apply Hm. Qed.

Lemma no_error_ext {A} (m m' : M A) :
  (forall h, m h = m' h) -> no_error m' -> no_error m.
Proof. intros E Hm h msg. rewrite E. apply Hm. Qed.

Lemma framed_match_result h0 m obj prog :
  framed h0 (match_result m obj prog) (fun _ => True).
Proof. unfold match_result. repeat framed_step. Qed.

Lemma no_error_match_result m obj prog : no_error (match_result m obj prog).
Proof.
  unfold match_result.
  destruct m; repeat no_error_step; apply no_error_formatNode.
Qed.

Lemma framed_findInBuiltin pkg h0 name obj prog :
  framed h0 (findInBuiltin pkg name obj prog) (fun _ => True).
Proof.
  eapply framed_ext; [intros h; apply findInBuiltin_spec | ].
  apply framed_match_result.
Qed.

Lemma no_error_findInBuiltin pkg name obj prog :
  no_error (findInBuiltin pkg name obj prog).
Proof.
  eapply no_error_ext; [intros h; apply findInBuiltin_spec | ].
  apply no_error_match_result.
Qed.

Lemma framed_keeps {A} h0 (m : M A) Q a node :
  framed h0 m Q -> h0 !! a = Some node -> (m h0).2 !! a = Some node.
Proof.
  intros Hm Ha. rewrite <- Ha. apply (framed_lookup _ _ _ _ Hm).
  now apply lookup_lt_Some in Ha.
Qed.

(** X12.  [findInBuiltin] returns no error, whatever the name; it changes
    no node of the store; and when it answers from a constant or a variable
    group, or finds nothing, it does not touch the store at all and the
    declaration text it returns is empty. *)
Theorem findInBuiltin_safe pkg name obj prog h :
  (forall msg, (findInBuiltin pkg name obj prog h).1 <> Error msg)
  /\ (forall a node, h !! a = Some node ->
        (findInBuiltin pkg name obj prog h).2 !! a = Some node)
  /\ ((forall f, builtinMatch pkg name <> MatchFunc f) ->
      (forall t, builtinMatch pkg name <> MatchType t) ->
      findInBuiltin pkg name obj prog h
      = (Ok (match_doc (builtinMatch pkg name), ""), h)).
Proof.
  repeat split.
  - apply no_error_findInBuiltin.
  - intros a node. apply (framed_keeps _ _ _ _ _ (framed_findInBuiltin pkg h name obj prog)).
  - intros Hf Ht. rewrite findInBuiltin_spec.
    destruct (builtinMatch pkg name) as [f|v|v|t|]; try reflexivity.
    + now destruct (Hf f).
    + now destruct (Ht t).
Qed.

Lemma findInBuiltin_safe_witness :
  ex_heap !! 3 = Some (NGenDecl ex_const_decl)
  /\ (findInBuiltin ex_builtin "len" ex_extra ex_prog ex_heap).2 !! 3
     = Some (NGenDecl ex_const_decl)
  /\ findInBuiltin ex_builtin "false" ex_true ex_prog ex_heap
     = (Ok ("true and false are the two untyped boolean values." +:+ nl, ""), ex_heap).
Proof.
  split; [reflexivity | ]. split.
  - exact (proj1 (proj2 (findInBuiltin_safe ex_builtin "len" ex_extra ex_prog ex_heap))
             3 _ eq_refl).
  - refine (proj2 (proj2 (findInBuiltin_safe ex_builtin "false" ex_true ex_prog ex_heap))
              _ _); intros x; discriminate.
Defined.

(** ** IdentDoc: what every call keeps *)

Lemma errors_with_no_error {A} msg (m : M A) : no_error m -> errors_with msg m.
Proof. intros Hm h e E. now destruct (Hm h e). Qed.

Lemma errors_with_fail {A} msg : errors_with msg (@fail A msg).
Proof. intros h e [= <-]. reflexivity. Qed.

Lemma errors_with_bind {A B} msg (m : M A) (k : A -> M B) :
  errors_with msg m -> (forall a, errors_with msg (k a)) ->
  errors_with msg (bind m k).
Proof.
  intros Hm Hk h e. unfold bind. specialize (Hm h).
  destruct (m h) as [[a|e'|] h1]; simpl in *.
  - apply Hk.
  - intros [= <-]. now apply Hm.
  - done.
Qed.

Lemma framed_IdentDoc_locate h0 pkgPath pkgName pos obj prog nodes :
  framed h0 (IdentDoc_locate pkgPath pkgName pos obj prog nodes) (fun _ => True).
Proof. induction nodes as [|node rest IH]; simpl; repeat framed_step. Qed.

Lemma framed_IdentDoc_extract h0 obj doc nodes :
  framed h0 (IdentDoc_extract obj doc nodes) (fun _ => True).
Proof.
  revert doc. induction nodes as [|node rest IH]; intros doc; simpl;
    repeat framed_step.
Qed.

Lemma no_error_IdentDoc_locate pkgPath pkgName pos obj prog nodes :
  no_error (IdentDoc_locate pkgPath pkgName pos obj prog nodes).
Proof.
  induction nodes as [|node rest IH]; simpl; [apply no_error_ret | ].
  apply no_error_bind; [apply no_error_load | ]. intros n.
  assert (Hb : forall d0 : string -> Doc,
            no_error (let* decl := formatNode node obj prog in ret (Some (d0 decl)))).
  { intros d0. apply no_error_bind; [apply no_error_formatNode | ].
    intros ?. apply no_error_ret. }
  destruct n; first [exact IH | apply (Hb (fun decl => Build_Doc _ _ _ decl _ _))].
Qed.

Lemma no_error_IdentDoc_extract obj doc nodes :
  no_error (IdentDoc_extract obj doc nodes).
Proof.
  revert doc. induction nodes as [|node rest IH]; intros doc; simpl;
    repeat no_error_step; apply IH.
Qed.

Lemma IdentDoc_locate_fields pkgPath pkgName pos obj prog nodes h doc h' :
  IdentDoc_locate pkgPath pkgName pos obj prog nodes h = (Ok (Some doc), h') ->
  d_Import doc = pkgPath /\ d_Pkg doc = pkgName /\ d_Name doc = obj_Name obj
  /\ d_Pos doc = pos.
Proof.
  revert h. induction nodes as [|node rest IH]; intros h; [done | ]. simpl.
  intros E. apply bind_inv_Ok in E as (n & h1 & El & E).
  assert (Hb : (let* decl := formatNode node obj prog in
                ret (Some {| d_Import := pkgPath; d_Pkg := pkgName;
                             d_Name := obj_Name obj; d_Decl := decl;
                             d_Doc := ""; d_Pos := pos |})) h1
               = (Ok (Some doc), h') ->
               d_Import doc = pkgPath /\ d_Pkg doc = pkgName
               /\ d_Name doc = obj_Name obj /\ d_Pos doc = pos).
  { intros Hb. apply bind_inv_Ok in Hb as (decl & h2 & _ & Hr).
    injection Hr as <- _. done. }
  destruct n; first [now apply (IH h1) | now apply Hb].
Qed.

Section IdentDocAlways.

Variable builtinPackage : DocPackage.
Variable AstPackage : Type.
Variable ParseDir : string -> (string -> bool) -> outcome (gmap string AstPackage).
Variable docNew : AstPackage -> string -> DocPackage.

Local Abbreviation run_IdentDoc := (IdentDoc builtinPackage AstPackage ParseDir docNew).
Local Abbreviation run_PackageDoc := (PackageDoc AstPackage ParseDir docNew).

Lemma framed_IdentDoc h0 ctx id pkg prog :
  framed h0 (run_IdentDoc ctx id pkg prog) (fun _ => True).
Proof.
  unfold IdentDoc.
  assert (Hb : forall name obj, framed h0 (findInBuiltin builtinPackage name obj prog)
                                  (fun _ => True))
    by (intros; apply framed_findInBuiltin).
  assert (Hl := framed_IdentDoc_locate h0). assert (He := framed_IdentDoc_extract h0).
  repeat framed_step.
Qed.

(** X13.  [IdentDoc] changes no node of the store, whatever the identifier
    and whatever it returns: the shared syntax trees are the same after the
    call, and the store has at most grown. *)
Theorem IdentDoc_leaves_trees_unchanged ctx id pkg prog h :
  h `prefix_of` (IdentDoc builtinPackage AstPackage ParseDir docNew ctx id pkg prog h).2
  /\ forall a node, h !! a = Some node ->
       (IdentDoc builtinPackage AstPackage ParseDir docNew ctx id pkg prog h).2 !! a
       = Some node.
Proof.
  split.
  - apply (framed_prefix _ _ _ (framed_IdentDoc h ctx id pkg prog)).
  - intros a node. apply (framed_keeps _ _ _ _ _ (framed_IdentDoc h ctx id pkg prog)).
Qed.

(** X14.  For a symbol that is not a package name, the only error
    [IdentDoc] returns is "No documentation found for" followed by the name
    of the symbol. *)
Theorem IdentDoc_only_error ctx id pkg prog h obj e :
  IdentDoc_object id pkg = Some obj ->
  (forall p, obj_Kind obj <> KPkgName p) ->
  (run_IdentDoc ctx id pkg prog h).1 = Error e ->
  e = "No documentation found for " +:+ obj_Name obj.
Proof.
  intros Hobj Hkind. destruct (obj_Pkg obj) as [p|] eqn:Hpkg.
  - rewrite (IdentDoc_declared_eq _ _ _ _ ctx id pkg prog h obj p Hobj Hpkg Hkind).
    destruct (prog_Path prog p (obj_Pos obj)) as [nodes|]; [ | done].
    apply errors_with_bind.
    + apply errors_with_no_error, no_error_IdentDoc_locate.
    + intros [doc|]; [ | apply errors_with_fail].
      apply errors_with_no_error, no_error_IdentDoc_extract.
  - rewrite (IdentDoc_builtin_eq _ _ _ _ ctx id pkg prog h obj Hobj Hpkg Hkind).
    apply errors_with_bind.
    + apply errors_with_no_error, no_error_match_result.
    + intros [doc decl]. unfold builtin_record.
      destruct (negb _); [ | apply errors_with_fail].
      apply errors_with_no_error, no_error_ret.
Qed.

(** X15.  A record returned for a symbol that is not a package name carries
    the name of the symbol, the position string of the symbol (empty when
    its position is not valid), and the path and the name of its package,
    or "builtin" twice when it has none. *)
Theorem IdentDoc_record_fields ctx id pkg prog h obj d :
  IdentDoc_object id pkg = Some obj ->
  (forall p, obj_Kind obj <> KPkgName p) ->
  (run_IdentDoc ctx id pkg prog h).1 = Ok d ->
  d_Name d = obj_Name obj
  /\ d_Pos d = (if IsValid (obj_Pos obj) then prog_Position prog (obj_Pos obj) else "")
  /\ d_Import d = match obj_Pkg obj with Some p => tp_Path p | None => "builtin" end
  /\ d_Pkg d = match obj_Pkg obj with Some p => tp_Name p | None => "builtin" end.
Proof.
  intros Hobj Hkind. destruct (obj_Pkg obj) as [p|] eqn:Hpkg.
  - rewrite (IdentDoc_declared_eq _ _ _ _ ctx id pkg prog h obj p Hobj Hpkg Hkind).
    destruct (prog_Path prog p (obj_Pos obj)) as [nodes|]; [ | done].
    destruct (bind _ _ h) as [r h'] eqn:E. simpl. intros ->.
    apply bind_inv_Ok in E as ([doc|] & h1 & El & Ee); [ | done].
    apply IdentDoc_locate_fields in El as (Hi & Hp & Hn & Hpos).
    apply IdentDoc_extract_inv in Ee as [_ Hd].
    destruct (Hd d eq_refl) as [s ->]. done.
  - rewrite (IdentDoc_builtin_eq _ _ _ _ ctx id pkg prog h obj Hobj Hpkg Hkind).
    destruct (bind _ _ h) as [r h'] eqn:E. simpl. intros ->.
    apply bind_inv_Ok in E as ([doc decl] & h1 & _ & Er).
    unfold builtin_record in Er. destruct (negb _); [ | done].
    injection Er as <- _. done.
Qed.

End IdentDocAlways.

(** ** IdentDoc, declaration by declaration *)

Lemma string_app_empty s : s +:+ "" = s.
Proof.
  induction s as [|c s IH]; [done | ].
  change (String c s +:+ "") with (String c (s +:+ "")). now rewrite IH.
Qed.

Lemma idents_at_prefix h h' l : h `prefix_of` h' -> idents_at h l -> idents_at h' l.
Proof.
  intros Hp Hl. unfold idents_at in *. eapply Forall_impl; [exact Hl | ].
  intros a [i Ha]. exists i. exact (prefix_lookup_Some _ _ _ _ Ha Hp).
Qed.

Lemma formatNode_prefix n obj prog h r h' :
  formatNode n obj prog h = (r, h') -> h `prefix_of` h'.
Proof.
  intros E. pose proof (framed_prefix _ _ _ (framed_formatNode h n obj prog)) as Hp.
  now rewrite E in Hp.
Qed.

(** The documentation a grouped declaration gives to a record that has
    none yet. *)
Lemma IdentDoc_extract_GenDecl obj doc gd g rest h :
  h !! gd = Some (NGenDecl g) -> d_Doc doc = "" ->
  IdentDoc_extract obj doc (gd :: rest) h
  = (Ok (d_set_Doc (Text (gd_Doc g) +:+ value_line obj) doc), h).
Proof.
  intros Hgd Hdoc. simpl. rewrite (bind_Ok _ _ _ _ _ (load_Some _ _ _ Hgd)).
  destruct doc as [dn di dp dd ds dpos]. simpl in Hdoc. subst ds.
  unfold value_line, ret, d_set_Doc. simpl.
  destruct (gd_Doc g) as [c|];
    (destruct (obj_Kind obj) as [exact| | | | | | |];
     [destruct (String.eqb exact "") | ..]);
    simpl; rewrite ?string_app_empty; reflexivity.
Qed.

Lemma IdentDoc_extract_TypeSpec obj doc node s rest h :
  h !! node = Some (NTypeSpec s) ->
  IdentDoc_extract obj doc (node :: rest) h
  = match own_doc (ts_Doc s) (ts_Comment s) with
    | Some text => (Ok (d_set_Doc text doc), h)
    | None => IdentDoc_extract obj doc rest h
    end.
Proof.
  intros Hn. simpl. rewrite (bind_Ok _ _ _ _ _ (load_Some _ _ _ Hn)).
  unfold own_doc. now destruct (ts_Doc s), (ts_Comment s).
Qed.

Lemma IdentDoc_extract_ValueSpec obj doc node s rest h :
  h !! node = Some (NValueSpec s) ->
  IdentDoc_extract obj doc (node :: rest) h
  = match own_doc (vs_Doc s) (vs_Comment s) with
    | Some text => (Ok (d_set_Doc text doc), h)
    | None => IdentDoc_extract obj doc rest h
    end.
Proof.
  intros Hn. simpl. rewrite (bind_Ok _ _ _ _ _ (load_Some _ _ _ Hn)).
  unfold own_doc. now destruct (vs_Doc s), (vs_Comment s).
Qed.

Section IdentDocByKind.

Variable builtinPackage : DocPackage.
Variable AstPackage : Type.
Variable ParseDir : string -> (string -> bool) -> outcome (gmap string AstPackage).
Variable docNew : AstPackage -> string -> DocPackage.

Local Abbreviation run_IdentDoc := (IdentDoc builtinPackage AstPackage ParseDir docNew).

(** For a symbol of a package of the program [IdentDoc] comes down to the
    second loop, run from the first node of the path that is not an
    identifier, on the record that holds the rendering of that node. *)
Lemma IdentDoc_declared_first ctx id pkg prog h obj p idents node n rest decl h' :
  IdentDoc_object id pkg = Some obj ->
  obj_Pkg obj = Some p ->
  (forall q, obj_Kind obj <> KPkgName q) ->
  prog_Path prog p (obj_Pos obj) = Some (idents ++ node :: rest) ->
  idents_at h idents ->
  h !! node = Some n -> is_ident n = false ->
  formatNode node obj prog h = (Ok decl, h') ->
  run_IdentDoc ctx id pkg prog h
  = IdentDoc_extract obj (located obj p prog decl) (node :: rest) h'.
Proof.
  intros Hobj Hpkg Hkind Hpath Hids Hn Hk Hf.
  rewrite (IdentDoc_declared_eq _ _ _ _ ctx id pkg prog h obj p Hobj Hpkg Hkind), Hpath.
  erewrite bind_Ok.
  2: { rewrite (IdentDoc_locate_idents _ _ _ _ _ _ _ _ Hids).
       rewrite (IdentDoc_locate_first _ _ _ _ _ _ _ _ _ Hn Hk).
       now rewrite (bind_Ok _ _ _ _ _ Hf). }
  cbv beta iota. apply IdentDoc_extract_idents.
  exact (idents_at_prefix _ _ _ (formatNode_prefix _ _ _ _ _ _ Hf) Hids).
Qed.

(** X16.  The identifier of a function: the record holds the rendering of
    a copy of the declaration without documentation and body, and the
    documentation of the declaration, empty when it has none; nothing above
    the declaration is consulted. *)
Theorem IdentDoc_function ctx id pkg prog h obj p idents node d rest :
  IdentDoc_object id pkg = Some obj ->
  obj_Pkg obj = Some p ->
  (forall q, obj_Kind obj <> KPkgName q) ->
  prog_Path prog p (obj_Pos obj) = Some (idents ++ node :: rest) ->
  idents_at h idents ->
  h !! node = Some (NFuncDecl d) ->
  let h' := h ++ [NFuncDecl {| fd_Doc := None; fd_Name := fd_Name d;
                               fd_Type := fd_Type d; fd_Body := None |}] in
  run_IdentDoc ctx id pkg prog h
  = (Ok (d_set_Doc (Text (fd_Doc d))
           (located obj p prog
              (default (obj_String obj) (prog_Fprint prog h' (length h))))),
     h').
Proof.
  intros Hobj Hpkg Hkind Hpath Hids Hn h'.
  pose proof (formatNode_of_copy _ _ obj prog _ _ (formatNode_copy_FuncDecl h node d obj Hn))
    as Hf.
  rewrite (IdentDoc_declared_first ctx id pkg prog h obj p idents node _ rest _ _
             Hobj Hpkg Hkind Hpath Hids Hn eq_refl Hf).
  simpl. fold h'.
  assert (Hn' : h' !! node = Some (NFuncDecl d)) by now apply lookup_app_l_Some.
  now rewrite (bind_Ok _ _ _ _ _ (load_Some _ _ _ Hn')).
Qed.

(** X17.  The identifier of a struct field or of an interface method: the
    declaration of the record is [obj.String()], the store is not touched,
    and the documentation is the leading comment of the field, else its
    trailing comment, else empty; the enclosing type is not consulted. *)
Theorem IdentDoc_field ctx id pkg prog h obj p idents node f rest :
  IdentDoc_object id pkg = Some obj ->
  obj_Pkg obj = Some p ->
  (forall q, obj_Kind obj <> KPkgName q) ->
  prog_Path prog p (obj_Pos obj) = Some (idents ++ node :: rest) ->
  idents_at h idents ->
  h !! node = Some (NField f) ->
  run_IdentDoc ctx id pkg prog h
  = (Ok (d_set_Doc (default "" (own_doc (fl_Doc f) (fl_Comment f)))
           (located obj p prog (obj_String obj))),
     h).
Proof.
  intros Hobj Hpkg Hkind Hpath Hids Hn.
  pose proof (formatNode_unsupported h node _ obj prog Hn eq_refl) as Hf.
  rewrite (IdentDoc_declared_first ctx id pkg prog h obj p idents node _ rest _ _
             Hobj Hpkg Hkind Hpath Hids Hn eq_refl Hf).
  simpl. rewrite (bind_Ok _ _ _ _ _ (load_Some _ _ _ Hn)).
  unfold own_doc. now destruct (fl_Doc f), (fl_Comment f).
Qed.

(** X18.  The identifier of a type, declared by a type spec inside a
    grouped declaration: the record holds the rendering of the spec alone,
    wrapped in a declaration of its own; its documentation is the leading
    comment of the spec, else the trailing comment of the spec, else the
    documentation of the group. *)
Theorem IdentDoc_type_spec ctx id pkg prog h obj p idents node s gd g rest :
  IdentDoc_object id pkg = Some obj ->
  obj_Pkg obj = Some p ->
  (forall q, obj_Kind obj <> KPkgName q) ->
  (forall exact, obj_Kind obj <> KConst exact) ->
  prog_Path prog p (obj_Pos obj) = Some (idents ++ node :: gd :: rest) ->
  idents_at h idents ->
  h !! node = Some (NTypeSpec s) ->
  h !! gd = Some (NGenDecl g) ->
  let h' := h ++ [NTypeSpec (ts_set_Doc None s);
                  NGenDecl {| gd_Doc := None; gd_TokPos := NoPos; gd_Tok := TYPE;
                              gd_Lparen := NoPos; gd_Specs := [length h];
                              gd_Rparen := NoPos |}] in
  run_IdentDoc ctx id pkg prog h
  = (Ok (d_set_Doc (default (Text (gd_Doc g)) (own_doc (ts_Doc s) (ts_Comment s)))
           (located obj p prog
              (default (obj_String obj) (prog_Fprint prog h' (length h + 1))))),
     h').
Proof.
  intros Hobj Hpkg Hkind Hconst Hpath Hids Hn Hgd h'.
  pose proof (formatNode_of_copy _ _ obj prog _ _ (formatNode_copy_TypeSpec h node s obj Hn))
    as Hf.
  rewrite (IdentDoc_declared_first ctx id pkg prog h obj p idents node _ (gd :: rest) _ _
             Hobj Hpkg Hkind Hpath Hids Hn eq_refl Hf).
  fold h'.
  assert (Hn' : h' !! node = Some (NTypeSpec s)) by now apply lookup_app_l_Some.
  assert (Hgd' : h' !! gd = Some (NGenDecl g)) by now apply lookup_app_l_Some.
  rewrite (IdentDoc_extract_TypeSpec _ _ _ _ _ _ Hn').
  destruct (own_doc (ts_Doc s) (ts_Comment s)); [reflexivity | ].
  rewrite (IdentDoc_extract_GenDecl obj (located obj p prog _) _ _ _ _ Hgd' eq_refl).
  assert (Hv : value_line obj = "").
  { unfold value_line. destruct (obj_Kind obj) eqn:Hk; try done.
    now destruct (Hconst exact). }
  simpl.
  now rewrite Hv, string_app_empty.
Qed.

(** X19.  The identifier of a variable or of a constant, declared by a
    value spec inside a grouped declaration: the declaration of the record
    is [obj.String()] and the store is not touched; the documentation is
    the leading comment of the spec, else its trailing comment, and only
    when the spec has neither, the documentation of the group followed, for
    a constant, by the line with its value. *)
Theorem IdentDoc_value_spec ctx id pkg prog h obj p idents node s gd g rest :
  IdentDoc_object id pkg = Some obj ->
  obj_Pkg obj = Some p ->
  (forall q, obj_Kind obj <> KPkgName q) ->
  prog_Path prog p (obj_Pos obj) = Some (idents ++ node :: gd :: rest) ->
  idents_at h idents ->
  h !! node = Some (NValueSpec s) ->
  h !! gd = Some (NGenDecl g) ->
  run_IdentDoc ctx id pkg prog h
  = (Ok (d_set_Doc (default (Text (gd_Doc g) +:+ value_line obj)
                      (own_doc (vs_Doc s) (vs_Comment s)))
           (located obj p prog (obj_String obj))),
     h).
Proof.
  intros Hobj Hpkg Hkind Hpath Hids Hn Hgd.
  pose proof (formatNode_unsupported h node _ obj prog Hn eq_refl) as Hf.
  rewrite (IdentDoc_declared_first ctx id pkg prog h obj p idents node _ (gd :: rest) _ _
             Hobj Hpkg Hkind Hpath Hids Hn eq_refl Hf).
  rewrite (IdentDoc_extract_ValueSpec _ _ _ _ _ _ Hn).
  destruct (own_doc (vs_Doc s) (vs_Comment s)); [reflexivity | ].
  now rewrite (IdentDoc_extract_GenDecl obj (located obj p prog _) _ _ _ _ Hgd eq_refl).
Qed.

End IdentDocByKind.

(** ** IdentDoc at the edges, and PackageDoc *)

Section IdentDocEdges.

Variable builtinPackage : DocPackage.
Variable AstPackage : Type.
Variable ParseDir : string -> (string -> bool) -> outcome (gmap string AstPackage).
Variable docNew : AstPackage -> string -> DocPackage.

Local Abbreviation run_IdentDoc := (IdentDoc builtinPackage AstPackage ParseDir docNew).
Local Abbreviation run_PackageDoc := (PackageDoc AstPackage ParseDir docNew).

(** X20.  [IdentDoc] panics, and leaves the store as it was, when the
    identifier has no object, when it names an embedded field that has no
    entry in the [Uses] map, and when the package of its symbol has no entry
    in the program. *)
Theorem IdentDoc_panics ctx id pkg prog h :
  (ObjectOf pkg id = None -> run_IdentDoc ctx id pkg prog h = (Panic, h))
  /\ (forall v, ObjectOf pkg id = Some v -> obj_Kind v = KVar true ->
        Uses pkg !! id = None -> run_IdentDoc ctx id pkg prog h = (Panic, h))
  /\ (forall obj p, IdentDoc_object id pkg = Some obj -> obj_Pkg obj = Some p ->
        (forall q, obj_Kind obj <> KPkgName q) ->
        prog_Path prog p (obj_Pos obj) = None ->
        run_IdentDoc ctx id pkg prog h = (Panic, h)).
Proof.
  repeat split.
  - intros E. unfold IdentDoc, IdentDoc_object. now rewrite E.
  - intros v E Hk Hu. unfold IdentDoc, IdentDoc_object. now rewrite E, Hk, Hu.
  - intros obj p Hobj Hpkg Hkind Hpath.
    rewrite (IdentDoc_declared_eq _ _ _ _ ctx id pkg prog h obj p Hobj Hpkg Hkind).
    now rewrite Hpath.
Qed.

(** X21.  The identifier of an embedded field: [IdentDoc] works on the
    object the [Uses] map gives for it; when that object is not itself an
    anonymous field, [IdentDoc] returns exactly what it returns for any
    identifier that has that object. *)
Theorem IdentDoc_embedded_field ctx id pkg prog h v t id' pkg' :
  ObjectOf pkg id = Some v -> obj_Kind v = KVar true ->
  Uses pkg !! id = Some t ->
  ObjectOf pkg' id' = Some t -> obj_Kind t <> KVar true ->
  IdentDoc_object id pkg = Some t
  /\ run_IdentDoc ctx id pkg prog h = run_IdentDoc ctx id' pkg' prog h.
Proof.
  intros E Hk Hu E' Hk'.
  assert (H1 : IdentDoc_object id pkg = Some t).
  { unfold IdentDoc_object. now rewrite E, Hk. }
  assert (H2 : IdentDoc_object id' pkg' = Some t).
  { unfold IdentDoc_object. rewrite E'.
    destruct (obj_Kind t) as [| [|] | | | | | |]; done. }
  split; [exact H1 | ]. unfold IdentDoc. now rewrite H1, H2.
Qed.

(** X22.  When the path of the symbol holds nothing but identifiers, an
    empty path included, [IdentDoc] returns the not-found error for the
    name of the symbol and leaves the store as it was. *)
Theorem IdentDoc_only_identifiers ctx id pkg prog h obj p idents :
  IdentDoc_object id pkg = Some obj ->
  obj_Pkg obj = Some p ->
  (forall q, obj_Kind obj <> KPkgName q) ->
  prog_Path prog p (obj_Pos obj) = Some idents ->
  idents_at h idents ->
  run_IdentDoc ctx id pkg prog h
  = (Error ("No documentation found for " +:+ obj_Name obj), h).
Proof.
  intros Hobj Hpkg Hkind Hpath Hids.
  rewrite (IdentDoc_declared_eq _ _ _ _ ctx id pkg prog h obj p Hobj Hpkg Hkind), Hpath.
  assert (El : forall a b c, IdentDoc_locate a b c obj prog idents h = (Ok None, h)).
  { intros a b c. rewrite <- (app_nil_r idents).
    now rewrite (IdentDoc_locate_idents _ _ _ _ _ _ _ _ Hids). }
  now rewrite (bind_Ok _ _ _ _ _ (El _ _ _)).
Qed.

(** X23.  A record of [PackageDoc] carries the import path it was asked
    for, the package clause of its name as declaration, and no position;
    an error of [PackageDoc] is the error of the import, the error of the
    parser, or the not-found error for the name the import gave. *)
Theorem PackageDoc_outcomes ctx srcDir importPath :
  (forall d, PackageDoc AstPackage ParseDir docNew ctx srcDir importPath = Ok d ->
     d_Import d = importPath
     /\ d_Decl d = "package " +:+ d_Name d
     /\ d_Pos d = ""
     /\ exists buildPkg, ctxt_Import ctx importPath srcDir = Ok buildPkg
                         /\ d_Name d = bp_Name buildPkg)
  /\ (forall e, PackageDoc AstPackage ParseDir docNew ctx srcDir importPath = Error e ->
        ctxt_Import ctx importPath srcDir = Error e
        \/ exists buildPkg,
             ctxt_Import ctx importPath srcDir = Ok buildPkg
             /\ ((exists filter, ParseDir (bp_Dir buildPkg) filter = Error e
                    /\ forall name, filter name = true <-> name ∈ bp_GoFiles buildPkg)
                 \/ e = "No documentation found for " +:+ bp_Name buildPkg)).
Proof.
  unfold PackageDoc.
  destruct (ctxt_Import ctx importPath srcDir) as [bp|e0|]; [ | split; [done | ] | done].
  2: { intros e [= <-]. now left. }
  set (filter := fun name : string => existsb _ (bp_GoFiles bp)).
  assert (Hfilter : forall name, filter name = true <-> name ∈ bp_GoFiles bp).
  { intros name. subst filter. cbv beta. rewrite existsb_exists. split.
    - intros (x & Hx & ->%String.eqb_eq). now apply list_elem_of_In.
    - intros Hin. exists name. split; [now apply list_elem_of_In | apply String.eqb_refl]. }
  destruct (ParseDir (bp_Dir bp) filter) as [pkgs|e0|] eqn:Ep; [ | split; [done | ] | done].
  2: { intros e [= <-]. right. exists bp. split; [done | ]. left. eauto. }
  destruct (pkgs !! bp_Name bp) as [astPkg|]; split; try done.
  - intros d [= <-]. simpl. repeat split. eauto.
  - intros e [= <-]. right. exists bp. split; [done | ]. now right.
Qed.

End IdentDocEdges.

(** ** The further properties on the worked programs *)

Lemma ex2_idents (a : addr) i :
  ex2_heap !! a = Some (NIdent i) -> idents_at ex2_heap [a].
Proof. intros Ha. constructor; [eauto | constructor]. Qed.

Lemma ex2_not_package obj :
  (if obj_Kind obj is KPkgName _ then false else true) = true ->
  forall q, obj_Kind obj <> KPkgName q.
Proof. intros E q Hq. now rewrite Hq in E. Qed.

Lemma IdentDoc_leaves_trees_unchanged_witness :
  ex2_heap !! 7 = Some (NTypeSpec ex2_T_spec)
  /\ (ex2_IdentDoc 9).2 !! 7 = Some (NTypeSpec ex2_T_spec)
  /\ length (ex2_IdentDoc 9).2 = length ex2_heap + 2.
Proof.
  split; [reflexivity | ]. split; [ | reflexivity].
  exact (proj2 (IdentDoc_leaves_trees_unchanged ex_clash unit ex_ParseDir ex_docNew
                  ex_ctx 9 ex2_loader ex2_prog ex2_heap)
           7 _ eq_refl).
Defined.

Lemma IdentDoc_only_error_witness :
  (ex2_IdentDoc 18).1 = Error "No documentation found for lost"
  /\ "No documentation found for lost" = "No documentation found for " +:+ obj_Name ex2_lost.
Proof.
  split; [reflexivity | ].
  exact (IdentDoc_only_error ex_clash unit ex_ParseDir ex_docNew ex_ctx 18 ex2_loader
           ex2_prog ex2_heap ex2_lost _ eq_refl (ex2_not_package ex2_lost eq_refl)
           eq_refl).
Defined.

Lemma IdentDoc_record_fields_witness :
  exists d,
    (ex2_IdentDoc 0).1 = Ok d
    /\ d_Name d = "f" /\ d_Pos d = "lib.go"
    /\ d_Import d = "example.com/lib" /\ d_Pkg d = "lib".
Proof.
  eexists. split; [reflexivity | ].
  exact (IdentDoc_record_fields ex_clash unit ex_ParseDir ex_docNew ex_ctx 0 ex2_loader
           ex2_prog ex2_heap ex2_f _ eq_refl (ex2_not_package ex2_f eq_refl) eq_refl).
Defined.

Lemma IdentDoc_function_witness :
  ex2_heap !! 1 = Some (NFuncDecl ex2_f_decl)
  /\ ex2_IdentDoc 0
     = (Ok {| d_Name := "f"; d_Import := "example.com/lib"; d_Pkg := "lib";
              d_Decl := "func f(n int) int"; d_Doc := ""; d_Pos := "lib.go" |},
        ex2_heap ++ [NFuncDecl {| fd_Doc := None; fd_Name := ex_ident 10 "f";
                                  fd_Type := "(n int) int"; fd_Body := None |}]).
Proof.
  split; [reflexivity | ].
  exact (IdentDoc_function ex_clash unit ex_ParseDir ex_docNew ex_ctx 0 ex2_loader
           ex2_prog ex2_heap ex2_f ex2_pkg [0] 1 ex2_f_decl [2]
           eq_refl eq_refl (ex2_not_package ex2_f eq_refl) eq_refl
           (ex2_idents 0 _ eq_refl) eq_refl).
Defined.

Lemma IdentDoc_field_witness :
  ex2_heap !! 4 = Some (NField ex2_Size_field)
  /\ ex2_IdentDoc 3
     = (Ok {| d_Name := "Size"; d_Import := "example.com/lib"; d_Pkg := "lib";
              d_Decl := "field Size int"; d_Doc := "in bytes" +:+ nl;
              d_Pos := "lib.go" |},
        ex2_heap).
Proof.
  split; [reflexivity | ].
  exact (IdentDoc_field ex_clash unit ex_ParseDir ex_docNew ex_ctx 3 ex2_loader
           ex2_prog ex2_heap ex2_Size ex2_pkg [3] 4 ex2_Size_field [5; 6; 7; 8; 2]
           eq_refl eq_refl (ex2_not_package ex2_Size eq_refl) eq_refl
           (ex2_idents 3 _ eq_refl) eq_refl).
Defined.

Lemma IdentDoc_type_spec_witness :
  ex2_heap !! 7 = Some (NTypeSpec ex2_T_spec)
  /\ ex2_heap !! 8 = Some (NGenDecl ex2_T_decl)
  /\ (ex2_IdentDoc 9).1
     = Ok {| d_Name := "T"; d_Import := "example.com/lib"; d_Pkg := "lib";
             d_Decl := "type T struct { Size int; T }";
             d_Doc := "T is a thing." +:+ nl; d_Pos := "lib.go" |}.
Proof.
  assert (Hc : forall exact, obj_Kind ex2_T <> KConst exact) by discriminate.
  split; [reflexivity | ]. split; [reflexivity | ].
  exact (f_equal fst
           (IdentDoc_type_spec ex_clash unit ex_ParseDir ex_docNew ex_ctx 9 ex2_loader
              ex2_prog ex2_heap ex2_T ex2_pkg [9] 7 ex2_T_spec 8 ex2_T_decl [2]
              eq_refl eq_refl (ex2_not_package ex2_T eq_refl) Hc eq_refl
              (ex2_idents 9 _ eq_refl) eq_refl eq_refl)).
Defined.

Lemma IdentDoc_value_spec_witness :
  ex2_heap !! 13 = Some (NValueSpec ex2_v_spec)
  /\ ex2_heap !! 14 = Some (NGenDecl ex2_v_decl)
  /\ ex2_IdentDoc 12
     = (Ok {| d_Name := "v"; d_Import := "example.com/lib"; d_Pkg := "lib";
              d_Decl := "var example.com/lib.v int"; d_Doc := "the v" +:+ nl;
              d_Pos := "lib.go" |},
        ex2_heap).
Proof.
  split; [reflexivity | ]. split; [reflexivity | ].
  exact (IdentDoc_value_spec ex_clash unit ex_ParseDir ex_docNew ex_ctx 12 ex2_loader
           ex2_prog ex2_heap ex2_v ex2_pkg [12] 13 ex2_v_spec 14 ex2_v_decl [2]
           eq_refl eq_refl (ex2_not_package ex2_v eq_refl) eq_refl
           (ex2_idents 12 _ eq_refl) eq_refl eq_refl).
Defined.

Lemma IdentDoc_panics_witness :
  ObjectOf ex2_loader 1 = None /\ ex2_IdentDoc 1 = (Panic, ex2_heap).
Proof.
  split; [reflexivity | ].
  exact (proj1 (IdentDoc_panics ex_clash unit ex_ParseDir ex_docNew ex_ctx 1 ex2_loader
                  ex2_prog ex2_heap) eq_refl).
Defined.

Lemma IdentDoc_embedded_field_witness :
  ObjectOf ex2_loader 10 = Some ex2_embedded
  /\ Uses ex2_loader !! 10 = Some ex2_T
  /\ IdentDoc_object 10 ex2_loader = Some ex2_T
  /\ ex2_IdentDoc 10 = ex2_IdentDoc 9.
Proof.
  assert (Hk : obj_Kind ex2_T <> KVar true) by discriminate.
  split; [reflexivity | ]. split; [reflexivity | ].
  exact (IdentDoc_embedded_field ex_clash unit ex_ParseDir ex_docNew ex_ctx 10
           ex2_loader ex2_prog ex2_heap ex2_embedded ex2_T 9 ex2_loader
           eq_refl eq_refl eq_refl eq_refl Hk).
Defined.

Lemma IdentDoc_only_identifiers_witness :
  prog_Path ex2_prog ex2_pkg (obj_Pos ex2_lost) = Some [18]
  /\ ex2_IdentDoc 18 = (Error "No documentation found for lost", ex2_heap).
Proof.
  split; [reflexivity | ].
  exact (IdentDoc_only_identifiers ex_clash unit ex_ParseDir ex_docNew ex_ctx 18
           ex2_loader ex2_prog ex2_heap ex2_lost ex2_pkg [18]
           eq_refl eq_refl (ex2_not_package ex2_lost eq_refl) eq_refl
           (ex2_idents 18 _ eq_refl)).
Defined.

Lemma PackageDoc_outcomes_witness :
  exists d,
    PackageDoc unit ex_ParseDir ex_docNew ex_ctx "" "fmt" = Ok d
    /\ d_Import d = "fmt" /\ d_Decl d = "package " +:+ d_Name d /\ d_Pos d = "".
Proof.
  eexists. split; [reflexivity | ].
  destruct (proj1 (PackageDoc_outcomes unit ex_ParseDir ex_docNew ex_ctx "" "fmt")
              _ eq_refl) as (H1 & H2 & H3 & _).
  exact (conj H1 (conj H2 H3)).
Defined.

Lemma ex_clash_documented : documented ex_clash.
Proof.
  repeat split; intros x Hin; apply list_elem_of_In in Hin; simpl in Hin;
    repeat (destruct Hin as [<-|Hin]; [discriminate | ]); destruct Hin.
Qed.

Lemma IdentDoc_builtin_documented_witness :
  documented ex_clash
  /\ ((IdentDoc ex_clash unit ex_ParseDir ex_docNew ex_ctx 15 ex_loader ex_prog
         ex_heap).1 = Error (not_found ex_true)
      <-> ~ in_catalogue ex_clash (obj_Name ex_true)).
Proof.
  assert (Hnp : (IdentDoc ex_clash unit ex_ParseDir ex_docNew ex_ctx 15 ex_loader
                   ex_prog ex_heap).1 <> Panic) by discriminate.
  split; [exact ex_clash_documented | ].
  exact (proj1 (IdentDoc_builtin_documented ex_clash unit ex_ParseDir ex_docNew ex_ctx
                  15 ex_loader ex_prog ex_heap ex_true eq_refl eq_refl
                  (ex2_not_package ex_true eq_refl) Hnp ex_clash_documented)).
Defined.


